(** * fluss: an IPFIX collector, shallow embedding of its parsing pipeline

    Modelled sources:
    - [src/ipfix/parser.rs]   : the nom wire parser ([parse], [parse_set], ...)
    - [src/ipfix/session.rs]  : the template cache and [Session::parse]
    - [src/protocol.rs]       : [Value], its coercions and [parse_number]
    - [src/produce/ipfix.rs]  : the flow projector [IpfixParser::parse]

    Bytes are [list byte].  Unsigned integers ([u8] .. [u64]) are [N]; all
    values built below stay in the range of their Rust type.  A Rust panic
    (an [unwrap] on [None]/[Err], an [assert_eq!], an explicit [panic!], an
    arithmetic overflow in a debug build) is the [Panic] outcome. *)

From stdpp Require Import base gmap list.
From Stdlib Require Import NArith Strings.Byte.
From Stdlib Require String.

Open Scope N_scope.

Abbreviation bytes := (list byte).

(** Big-endian decoding of a byte string. *)
Definition be_value (l : bytes) : N :=
  fold_left (fun acc b => acc * 256 + Byte.to_N b) l 0.

(** ** Rust outcomes: a returned value or a panic *)

Inductive outcome (A : Type) : Type :=
| Ret (a : A)
| Panic.
Arguments Ret {A} a.
Arguments Panic {A}.

#[global] Instance outcome_ret : MRet outcome := fun A a => Ret a.
#[global] Instance outcome_bind : MBind outcome :=
  fun A B k m => match m with Ret a => k a | Panic => Panic end.

(** [Option::unwrap] *)
Definition unwrap {A} (o : option A) : outcome A :=
  match o with Some a => Ret a | None => Panic end.

(** ** nom's [IResult] over complete input

    [IOk rest x] is [Ok((rest, x))], [IErr] any [Err(nom::Err::Error _)]
    (the parsers used are the [complete] ones: no [Incomplete]), [IPanic] a
    Rust panic raised inside the parser. *)

Inductive IResult (A : Type) : Type :=
| IOk (rest : bytes) (a : A)
| IErr
| IPanic.
Arguments IOk {A} rest a.
Arguments IErr {A}.
Arguments IPanic {A}.

Definition ibind {A B} (r : IResult A) (k : bytes -> A -> IResult B) : IResult B :=
  match r with
  | IOk rest a => k rest a
  | IErr => IErr
  | IPanic => IPanic
  end.

(** [nom::number::complete::be_u8 / be_u16 / be_u32] *)
Definition be_u8 (input : bytes) : IResult N :=
  match input with
  | b0 :: rest => IOk rest (Byte.to_N b0)
  | _ => IErr
  end.

Definition be_u16 (input : bytes) : IResult N :=
  match input with
  | b0 :: b1 :: rest => IOk rest (be_value [b0; b1])
  | _ => IErr
  end.

Definition be_u32 (input : bytes) : IResult N :=
  match input with
  | b0 :: b1 :: b2 :: b3 :: rest => IOk rest (be_value [b0; b1; b2; b3])
  | _ => IErr
  end.

(** [nom::bytes::complete::take(n)]: [Ok((rest, taken))] or an error when
    the input is too short.  (Renamed: stdpp already has [take].) *)
Definition nom_take (n : N) (input : bytes) : IResult bytes :=
  if (N.to_nat n <=? length input)%nat
  then IOk (drop (N.to_nat n) input) (take (N.to_nat n) input)
  else IErr.

(** [peek!(be_u16)] *)
Definition peek_be_u16 (input : bytes) : IResult N :=
  ibind (be_u16 input) (fun _ v => IOk input v).

(** [length - 4] on a [u16]: [None] when the subtraction underflows, which
    panics in a debug build. *)
Definition checked_sub (a b : N) : option N :=
  if b <=? a then Some (a - b) else None.

(** [nom::multi::count(f, n)] *)
Fixpoint count {A} (f : bytes -> IResult A) (n : nat) (input : bytes)
  : IResult (list A) :=
  match n with
  | O => IOk input []
  | S n' =>
      ibind (f input) (fun i1 a =>
      ibind (count f n' i1) (fun i2 l => IOk i2 (a :: l)))
  end.

(** The loop of [nom::multi::many1] after its first item: stop with the
    items so far on an [Error], fail with [Many1] when an item consumed
    nothing.  Each round consumes at least one byte, so [length input]
    rounds suffice: [fuel] is never the reason to stop. *)
Fixpoint many1_loop {A} (f : bytes -> IResult A) (fuel : nat) (input : bytes)
  : IResult (list A) :=
  match fuel with
  | O => IOk input []
  | S fuel' =>
      match f input with
      | IErr => IOk input []
      | IPanic => IPanic
      | IOk i1 a =>
          if (length i1 =? length input)%nat then IErr
          else ibind (many1_loop f fuel' i1) (fun i2 l => IOk i2 (a :: l))
      end
  end.

(** [nom::multi::many1] (the [many1!] macro of nom 5). *)
Definition many1 {A} (f : bytes -> IResult A) (input : bytes) : IResult (list A) :=
  ibind (f input) (fun i1 a =>
  ibind (many1_loop f (length i1) i1) (fun i2 l => IOk i2 (a :: l))).

(** ** [src/ipfix/parser.rs] : data model *)

Record FieldSpecifier := {
  fs_id : N;
  fs_length : N;
  fs_enterprise_id : option N;
}.

Record TemplateRecord := {
  tr_id : N;
  tr_fields : list FieldSpecifier;
}.

Record DataSet := {
  ds_id : N;
  ds_data : bytes;
}.

Inductive Set_ :=
| SDataSet (d : DataSet)
| SOptionsSet
| STemplateSet (records : list TemplateRecord).

Record Packet := {
  version : N;
  export_time : N;
  sequence_number : N;
  observation_domain_id : N;
  sets : list Set_;
}.

(** ** [src/ipfix/parser.rs] : the parsers *)

(** [parse_field_specifier]: [cond!(id > 0x8000, be_u32)] reads the
    enterprise number, then the id is masked with [0x7fff]. *)
Definition parse_field_specifier (input : bytes) : IResult FieldSpecifier :=
  ibind (be_u16 input) (fun input id =>
  ibind (be_u16 input) (fun input length =>
  ibind (if 0x8000 <? id
         then ibind (be_u32 input) (fun input e => IOk input (Some e))
         else IOk input None) (fun input enterprise_id =>
  IOk input {| fs_id := N.land id 0x7fff;
               fs_length := length;
               fs_enterprise_id := enterprise_id |}))).

(** [do_parse_template_set]: [many1!] of [id: be_u16 >> fields:
    length_count!(be_u16, parse_field_specifier)]. *)
Definition parse_template_record (input : bytes) : IResult TemplateRecord :=
  ibind (be_u16 input) (fun input id =>
  ibind (be_u16 input) (fun input n =>
  ibind (count parse_field_specifier (N.to_nat n) input) (fun input fields =>
  IOk input {| tr_id := id; tr_fields := fields |}))).

Definition do_parse_template_set (input : bytes) : IResult (list TemplateRecord) :=
  many1 parse_template_record input.

(** [parse_template_set]: the set header, the set body, then
    [assert_eq!(r.len(), 0)] on what the records left over. *)
Definition parse_template_set (input : bytes) : IResult Set_ :=
  ibind (be_u16 input) (fun input _ =>
  ibind (be_u16 input) (fun input length =>
  match checked_sub length 4 with
  | None => IPanic
  | Some n =>
      ibind (nom_take n input) (fun input data =>
      ibind (do_parse_template_set data) (fun r sets =>
      match r with
      | [] => IOk input (STemplateSet sets)
      | _ :: _ => IPanic
      end))
  end)).

Definition parse_options_set (input : bytes) : IResult Set_ :=
  ibind (be_u16 input) (fun input _ =>
  ibind (be_u16 input) (fun input length =>
  match checked_sub length 4 with
  | None => IPanic
  | Some n => ibind (nom_take n input) (fun input _ => IOk input SOptionsSet)
  end)).

Definition parse_data_set (input : bytes) : IResult Set_ :=
  ibind (be_u16 input) (fun input id =>
  ibind (be_u16 input) (fun input length =>
  match checked_sub length 4 with
  | None => IPanic
  | Some n =>
      ibind (nom_take n input) (fun input data =>
      IOk input (SDataSet {| ds_id := id; ds_data := data |}))
  end)).

(** [parse_set]: [switch!(peek!(be_u16), 2 => template, 3 => options,
    _ => data)]. *)
Definition parse_set (input : bytes) : IResult Set_ :=
  ibind (peek_be_u16 input) (fun input set_id =>
  if set_id =? 2 then parse_template_set input
  else if set_id =? 3 then parse_options_set input
  else parse_data_set input).

(** [do_parse]: message header, the message body cut to [length - 4],
    [many1!(complete!(parse_set))] over it, then the two [assert_eq!]s. *)
Definition do_parse (input : bytes) : IResult Packet :=
  ibind (be_u16 input) (fun input version =>
  ibind (be_u16 input) (fun input length =>
  match checked_sub length 4 with
  | None => IPanic
  | Some n =>
      ibind (nom_take n input) (fun remaining input =>
      ibind (be_u32 input) (fun input export_time =>
      ibind (be_u32 input) (fun input sequence_number =>
      ibind (be_u32 input) (fun input observation_domain_id =>
      ibind (many1 parse_set input) (fun rest sets =>
      match rest, remaining with
      | [], [] =>
          IOk remaining {| version := version;
                           export_time := export_time;
                           sequence_number := sequence_number;
                           observation_domain_id := observation_domain_id;
                           sets := sets |}
      | _, _ => IPanic
      end)))))
  end)).

(** Result of [parse]: [anyhow::Result<Packet>], or a panic. *)
Inductive ParseResult :=
| PacketOk (p : Packet)
| ParseErr
| ParsePanic.

Definition parse (input : bytes) : ParseResult :=
  match do_parse input with
  | IOk _ packet => PacketOk packet
  | IErr => ParseErr
  | IPanic => ParsePanic
  end.

(** ** [src/protocol.rs] *)

(** [nom::number::complete::be_u64 / be_u128], on [k]-byte words. *)
Definition be_word (k : nat) (input : bytes) : IResult N :=
  if (k <=? length input)%nat
  then IOk (drop k input) (be_value (take k input))
  else IErr.

Definition be_u64 := be_word 8.
Definition be_u128 := be_word 16.

(** [Value].  [String] is renamed [String_] (the name of a Stdlib module);
    addresses are their numeric value, MAC addresses their bytes. *)
Inductive Value :=
| U8 (v : N)
| U16 (v : N)
| U32 (v : N)
| U64 (v : N)
| Bytes (b : bytes)
| String_ (s : String.string)
| Ipv4Addr (a : N)
| Ipv6Addr (a : N)
| MacAddr6 (m : bytes)
| MacAddr8 (m : bytes)
| Unknown (b : bytes).

Definition as_u8 (v : Value) : option N :=
  match v with
  | U8 val => Some val
  | _ => None
  end.

Definition as_u16 (v : Value) : option N :=
  match v with
  | U8 val => Some val
  | U16 val => Some val
  | _ => None
  end.

Definition as_u32 (v : Value) : option N :=
  match v with
  | U8 val => Some val
  | U16 val => Some val
  | U32 val => Some val
  | _ => None
  end.

Definition as_u64 (v : Value) : option N :=
  match v with
  | U8 val => Some val
  | U16 val => Some val
  | U32 val => Some val
  | U64 val => Some val
  | _ => None
  end.

Definition as_ipv4 (v : Value) : option N :=
  match v with Ipv4Addr a => Some a | _ => None end.

Definition as_mac6 (v : Value) : option bytes :=
  match v with MacAddr6 m => Some m | _ => None end.

(** [parse_u8 .. parse_u64]: [read_uN(input).map(..).unwrap()]. *)
Definition parse_with (rd : bytes -> IResult N) (mk : N -> Value) (input : bytes)
  : outcome Value :=
  match rd input with
  | IOk _ val => Ret (mk val)
  | _ => Panic
  end.

Definition parse_u8 := parse_with be_u8 U8.
Definition parse_u16 := parse_with be_u16 U16.
Definition parse_u32 := parse_with be_u32 U32.
Definition parse_u64 := parse_with be_u64 U64.

Definition parse_number (input : bytes) : outcome Value :=
  match length input with
  | 8%nat => parse_u64 input
  | 4%nat => parse_u32 input
  | 2%nat => parse_u16 input
  | 1%nat => parse_u8 input
  | _ => Panic (* panic!("invalid byte length {} for a number", ..) *)
  end.

Definition parse_ipv4 := parse_with be_u32 Ipv4Addr.

(** [parse_mac6] / [parse_mac8] index [input[0..6]] / [input[0..8]]. *)
Definition parse_mac (input : bytes) : outcome Value :=
  match length input with
  | 6%nat => Ret (MacAddr6 (take 6 input))
  | 8%nat => Ret (MacAddr8 (take 8 input))
  | _ => Panic (* panic!("invalid byte length {} for mac address", ..) *)
  end.

(** ** [src/ipfix/session.rs] *)

(** The [Parser] trait: a projector from a template's fields and one record
    to an optional output; [P] is the projector's own state. *)
Class Parser (P Output : Type) :=
  parser_parse : P -> list FieldSpecifier -> DataSet -> outcome (option Output).

(** [Session<P>]: the template cache behind its [RwLock], and the
    projector. *)
Record Session (P : Type) := {
  templates : gmap N (list FieldSpecifier);
  parser : P;
}.
Arguments templates {P} s.
Arguments parser {P} s.

(** [<[u8]>::chunks(size)] for [size > 0]: consecutive pieces of [size]
    elements, the last one shorter when [size] does not divide the length.
    A piece takes at least one element, so [length l] rounds suffice. *)
Fixpoint chunks_fuel {A} (fuel : nat) (size : nat) (l : list A) : list (list A) :=
  match fuel with
  | O => []
  | S fuel' =>
      match l with
      | [] => []
      | _ :: _ => take size l :: chunks_fuel fuel' size (drop size l)
      end
  end.

Definition chunks {A} (size : nat) (l : list A) : list (list A) :=
  chunks_fuel (length l) size l.

(** [.filter_map(..).collect()] over projector calls, in order; the first
    panic aborts. *)
Fixpoint collect_some {A} (l : list (outcome (option A))) : outcome (list A) :=
  match l with
  | [] => Ret []
  | o :: rest =>
      x ← o;
      xs ← collect_some rest;
      Ret (match x with Some a => a :: xs | None => xs end)
  end.

Section SessionOps.
Context {P Output : Type} `{Parser P Output}.

(** [Session::add_records]: insert every record in order; a later record
    overwrites an earlier one with the same id. *)
Definition add_records (s : Session P) (records : list TemplateRecord) : Session P :=
  {| templates := fold_left (fun m r => <[tr_id r := tr_fields r]> m) records (templates s);
     parser := parser s |}.

(** Template stride: [fields.iter().map(|f| f.length as usize).sum()]. *)
Definition stride (fields : list FieldSpecifier) : nat :=
  sum_list (map (fun f => N.to_nat (fs_length f)) fields).

(** Decoding of a data set under a field list: one projector call per
    chunk of [stride] bytes ([chunks(0)] panics). *)
Definition decode_with (p : P) (fields : list FieldSpecifier) (set : DataSet)
  : outcome (list Output) :=
  let length := stride fields in
  if (length =? 0)%nat then Panic
  else collect_some
         (map (fun data => parser_parse p fields {| ds_id := ds_id set; ds_data := data |})
              (chunks length (ds_data set))).

(** [Session::parse_data_set]: no output on a template miss. *)
Definition session_parse_data_set (s : Session P) (set : DataSet) : outcome (list Output) :=
  match templates s !! ds_id set with
  | None => Ret []
  | Some fields => decode_with (parser s) fields set
  end.

(** [Session::parse] consumed in full: the sets in order, template sets
    updating the shared cache, data sets decoded under the cache as it is at
    that point; returns the session afterwards and the outputs. *)
Fixpoint session_parse_sets (s : Session P) (sets : list Set_)
  : outcome (Session P * list Output) :=
  match sets with
  | [] => Ret (s, [])
  | STemplateSet records :: rest => session_parse_sets (add_records s records) rest
  | SDataSet data :: rest =>
      outs ← session_parse_data_set s data;
      '(s', outs') ← session_parse_sets s rest;
      Ret (s', outs ++ outs')
  | SOptionsSet :: rest => session_parse_sets s rest
  end.

Definition session_parse (s : Session P) (packet : Packet) : outcome (Session P * list Output) :=
  session_parse_sets s (sets packet).

End SessionOps.

(** ** [src/produce/ipfix.rs] : the flow projector [IpfixParser] *)

Definition IPFIX_BYTES_IN : N := 1.
Definition IPFIX_PACKETS_IN : N := 2.
Definition IPFIX_SRC_PORT : N := 7.
Definition IPFIX_IPV4_SRC_ADDR : N := 8.
Definition IPFIX_IPV4_SRC_MASK : N := 9.
Definition IPFIX_DST_PORT : N := 11.
Definition IPFIX_IPV4_DST_ADDR : N := 12.
Definition IPFIX_IPV4_DST_MASK : N := 13.
Definition IPFIX_IPV4_NEXT_HOP : N := 15.
Definition IPFIX_FLOW_END_SYSUPTIME : N := 21.
Definition IPFIX_FLOW_START_SYSUPTIME : N := 22.
Definition IPFIX_BYTES_OUT : N := 23.
Definition IPFIX_PACKETS_OUT : N := 24.
Definition IPFIX_MAC_SRC : N := 56.
Definition IPFIX_VLAN_ID : N := 58.
Definition IPFIX_POST_VLAN_ID : N := 59.
Definition IPFIX_MAC_DST : N := 81.
Definition IPFIX_POST_NAT_IPV4_SRC_ADDR : N := 225.
Definition IPFIX_POST_NAT_IPV4_DST_ADDR : N := 226.
Definition IPFIX_POST_NAPT_SRC_PORT : N := 227.
Definition IPFIX_POST_NAPT_DST_PORT : N := 228.
Definition IPFIX_ETHERNET_TYPE : N := 256.

(** [std::net::IpAddr] *)
Inductive IpAddr :=
| V4 (a : N)
| V6 (a : N).

(** [Ipv4Addr::new(127, 0, 0, 1)] and [MacAddr6::broadcast()] *)
Definition localhost : IpAddr := V4 0x7f000001.
Definition broadcast : bytes := [xff; xff; xff; xff; xff; xff].

(** The mutable locals of [IpfixParser::parse]; [start] and [end_] are the
    two [Duration]s, in milliseconds ([Duration::from_millis]). *)
Record Locals := {
  l_bytes : N;
  l_packets : N;
  l_ethernet_type : N;
  l_src_mac : bytes;
  l_dst_mac : bytes;
  l_src_addr : IpAddr;
  l_dst_addr : IpAddr;
  l_src_net : N;
  l_dst_net : N;
  l_src_port : N;
  l_dst_port : N;
  l_vlan_id : N;
  l_post_vlan_id : N;
  l_post_nat_src_addr : IpAddr;
  l_post_nat_dst_addr : IpAddr;
  l_post_napt_src_port : N;
  l_post_napt_dst_port : N;
  l_next_hop_addr : IpAddr;
  l_start : N;
  l_end_ : N;
}.

(** Their initial values. *)
Definition init_locals : Locals := {|
  l_bytes := 0;
  l_packets := 0;
  l_ethernet_type := 0;
  l_src_mac := broadcast;
  l_dst_mac := broadcast;
  l_src_addr := localhost;
  l_dst_addr := localhost;
  l_src_net := 0;
  l_dst_net := 0;
  l_src_port := 0;
  l_dst_port := 0;
  l_vlan_id := 0;
  l_post_vlan_id := 0;
  l_post_nat_src_addr := localhost;
  l_post_nat_dst_addr := localhost;
  l_post_napt_src_port := 0;
  l_post_napt_dst_port := 0;
  l_next_hop_addr := localhost;
  l_start := 0;
  l_end_ := 0 |}.

(** One assignment [x = v] per local. *)
Definition set_bytes (v : N) (st : Locals) : Locals :=
  {| l_bytes := v;
     l_packets := l_packets st;
     l_ethernet_type := l_ethernet_type st;
     l_src_mac := l_src_mac st;
     l_dst_mac := l_dst_mac st;
     l_src_addr := l_src_addr st;
     l_dst_addr := l_dst_addr st;
     l_src_net := l_src_net st;
     l_dst_net := l_dst_net st;
     l_src_port := l_src_port st;
     l_dst_port := l_dst_port st;
     l_vlan_id := l_vlan_id st;
     l_post_vlan_id := l_post_vlan_id st;
     l_post_nat_src_addr := l_post_nat_src_addr st;
     l_post_nat_dst_addr := l_post_nat_dst_addr st;
     l_post_napt_src_port := l_post_napt_src_port st;
     l_post_napt_dst_port := l_post_napt_dst_port st;
     l_next_hop_addr := l_next_hop_addr st;
     l_start := l_start st;
     l_end_ := l_end_ st |}.
Definition set_packets (v : N) (st : Locals) : Locals :=
  {| l_bytes := l_bytes st;
     l_packets := v;
     l_ethernet_type := l_ethernet_type st;
     l_src_mac := l_src_mac st;
     l_dst_mac := l_dst_mac st;
     l_src_addr := l_src_addr st;
     l_dst_addr := l_dst_addr st;
     l_src_net := l_src_net st;
     l_dst_net := l_dst_net st;
     l_src_port := l_src_port st;
     l_dst_port := l_dst_port st;
     l_vlan_id := l_vlan_id st;
     l_post_vlan_id := l_post_vlan_id st;
     l_post_nat_src_addr := l_post_nat_src_addr st;
     l_post_nat_dst_addr := l_post_nat_dst_addr st;
     l_post_napt_src_port := l_post_napt_src_port st;
     l_post_napt_dst_port := l_post_napt_dst_port st;
     l_next_hop_addr := l_next_hop_addr st;
     l_start := l_start st;
     l_end_ := l_end_ st |}.
Definition set_ethernet_type (v : N) (st : Locals) : Locals :=
  {| l_bytes := l_bytes st;
     l_packets := l_packets st;
     l_ethernet_type := v;
     l_src_mac := l_src_mac st;
     l_dst_mac := l_dst_mac st;
     l_src_addr := l_src_addr st;
     l_dst_addr := l_dst_addr st;
     l_src_net := l_src_net st;
     l_dst_net := l_dst_net st;
     l_src_port := l_src_port st;
     l_dst_port := l_dst_port st;
     l_vlan_id := l_vlan_id st;
     l_post_vlan_id := l_post_vlan_id st;
     l_post_nat_src_addr := l_post_nat_src_addr st;
     l_post_nat_dst_addr := l_post_nat_dst_addr st;
     l_post_napt_src_port := l_post_napt_src_port st;
     l_post_napt_dst_port := l_post_napt_dst_port st;
     l_next_hop_addr := l_next_hop_addr st;
     l_start := l_start st;
     l_end_ := l_end_ st |}.
Definition set_src_mac (v : bytes) (st : Locals) : Locals :=
  {| l_bytes := l_bytes st;
     l_packets := l_packets st;
     l_ethernet_type := l_ethernet_type st;
     l_src_mac := v;
     l_dst_mac := l_dst_mac st;
     l_src_addr := l_src_addr st;
     l_dst_addr := l_dst_addr st;
     l_src_net := l_src_net st;
     l_dst_net := l_dst_net st;
     l_src_port := l_src_port st;
     l_dst_port := l_dst_port st;
     l_vlan_id := l_vlan_id st;
     l_post_vlan_id := l_post_vlan_id st;
     l_post_nat_src_addr := l_post_nat_src_addr st;
     l_post_nat_dst_addr := l_post_nat_dst_addr st;
     l_post_napt_src_port := l_post_napt_src_port st;
     l_post_napt_dst_port := l_post_napt_dst_port st;
     l_next_hop_addr := l_next_hop_addr st;
     l_start := l_start st;
     l_end_ := l_end_ st |}.
Definition set_dst_mac (v : bytes) (st : Locals) : Locals :=
  {| l_bytes := l_bytes st;
     l_packets := l_packets st;
     l_ethernet_type := l_ethernet_type st;
     l_src_mac := l_src_mac st;
     l_dst_mac := v;
     l_src_addr := l_src_addr st;
     l_dst_addr := l_dst_addr st;
     l_src_net := l_src_net st;
     l_dst_net := l_dst_net st;
     l_src_port := l_src_port st;
     l_dst_port := l_dst_port st;
     l_vlan_id := l_vlan_id st;
     l_post_vlan_id := l_post_vlan_id st;
     l_post_nat_src_addr := l_post_nat_src_addr st;
     l_post_nat_dst_addr := l_post_nat_dst_addr st;
     l_post_napt_src_port := l_post_napt_src_port st;
     l_post_napt_dst_port := l_post_napt_dst_port st;
     l_next_hop_addr := l_next_hop_addr st;
     l_start := l_start st;
     l_end_ := l_end_ st |}.
Definition set_src_addr (v : IpAddr) (st : Locals) : Locals :=
  {| l_bytes := l_bytes st;
     l_packets := l_packets st;
     l_ethernet_type := l_ethernet_type st;
     l_src_mac := l_src_mac st;
     l_dst_mac := l_dst_mac st;
     l_src_addr := v;
     l_dst_addr := l_dst_addr st;
     l_src_net := l_src_net st;
     l_dst_net := l_dst_net st;
     l_src_port := l_src_port st;
     l_dst_port := l_dst_port st;
     l_vlan_id := l_vlan_id st;
     l_post_vlan_id := l_post_vlan_id st;
     l_post_nat_src_addr := l_post_nat_src_addr st;
     l_post_nat_dst_addr := l_post_nat_dst_addr st;
     l_post_napt_src_port := l_post_napt_src_port st;
     l_post_napt_dst_port := l_post_napt_dst_port st;
     l_next_hop_addr := l_next_hop_addr st;
     l_start := l_start st;
     l_end_ := l_end_ st |}.
Definition set_dst_addr (v : IpAddr) (st : Locals) : Locals :=
  {| l_bytes := l_bytes st;
     l_packets := l_packets st;
     l_ethernet_type := l_ethernet_type st;
     l_src_mac := l_src_mac st;
     l_dst_mac := l_dst_mac st;
     l_src_addr := l_src_addr st;
     l_dst_addr := v;
     l_src_net := l_src_net st;
     l_dst_net := l_dst_net st;
     l_src_port := l_src_port st;
     l_dst_port := l_dst_port st;
     l_vlan_id := l_vlan_id st;
     l_post_vlan_id := l_post_vlan_id st;
     l_post_nat_src_addr := l_post_nat_src_addr st;
     l_post_nat_dst_addr := l_post_nat_dst_addr st;
     l_post_napt_src_port := l_post_napt_src_port st;
     l_post_napt_dst_port := l_post_napt_dst_port st;
     l_next_hop_addr := l_next_hop_addr st;
     l_start := l_start st;
     l_end_ := l_end_ st |}.
Definition set_src_net (v : N) (st : Locals) : Locals :=
  {| l_bytes := l_bytes st;
     l_packets := l_packets st;
     l_ethernet_type := l_ethernet_type st;
     l_src_mac := l_src_mac st;
     l_dst_mac := l_dst_mac st;
     l_src_addr := l_src_addr st;
     l_dst_addr := l_dst_addr st;
     l_src_net := v;
     l_dst_net := l_dst_net st;
     l_src_port := l_src_port st;
     l_dst_port := l_dst_port st;
     l_vlan_id := l_vlan_id st;
     l_post_vlan_id := l_post_vlan_id st;
     l_post_nat_src_addr := l_post_nat_src_addr st;
     l_post_nat_dst_addr := l_post_nat_dst_addr st;
     l_post_napt_src_port := l_post_napt_src_port st;
     l_post_napt_dst_port := l_post_napt_dst_port st;
     l_next_hop_addr := l_next_hop_addr st;
     l_start := l_start st;
     l_end_ := l_end_ st |}.
Definition set_dst_net (v : N) (st : Locals) : Locals :=
  {| l_bytes := l_bytes st;
     l_packets := l_packets st;
     l_ethernet_type := l_ethernet_type st;
     l_src_mac := l_src_mac st;
     l_dst_mac := l_dst_mac st;
     l_src_addr := l_src_addr st;
     l_dst_addr := l_dst_addr st;
     l_src_net := l_src_net st;
     l_dst_net := v;
     l_src_port := l_src_port st;
     l_dst_port := l_dst_port st;
     l_vlan_id := l_vlan_id st;
     l_post_vlan_id := l_post_vlan_id st;
     l_post_nat_src_addr := l_post_nat_src_addr st;
     l_post_nat_dst_addr := l_post_nat_dst_addr st;
     l_post_napt_src_port := l_post_napt_src_port st;
     l_post_napt_dst_port := l_post_napt_dst_port st;
     l_next_hop_addr := l_next_hop_addr st;
     l_start := l_start st;
     l_end_ := l_end_ st |}.
Definition set_src_port (v : N) (st : Locals) : Locals :=
  {| l_bytes := l_bytes st;
     l_packets := l_packets st;
     l_ethernet_type := l_ethernet_type st;
     l_src_mac := l_src_mac st;
     l_dst_mac := l_dst_mac st;
     l_src_addr := l_src_addr st;
     l_dst_addr := l_dst_addr st;
     l_src_net := l_src_net st;
     l_dst_net := l_dst_net st;
     l_src_port := v;
     l_dst_port := l_dst_port st;
     l_vlan_id := l_vlan_id st;
     l_post_vlan_id := l_post_vlan_id st;
     l_post_nat_src_addr := l_post_nat_src_addr st;
     l_post_nat_dst_addr := l_post_nat_dst_addr st;
     l_post_napt_src_port := l_post_napt_src_port st;
     l_post_napt_dst_port := l_post_napt_dst_port st;
     l_next_hop_addr := l_next_hop_addr st;
     l_start := l_start st;
     l_end_ := l_end_ st |}.
Definition set_dst_port (v : N) (st : Locals) : Locals :=
  {| l_bytes := l_bytes st;
     l_packets := l_packets st;
     l_ethernet_type := l_ethernet_type st;
     l_src_mac := l_src_mac st;
     l_dst_mac := l_dst_mac st;
     l_src_addr := l_src_addr st;
     l_dst_addr := l_dst_addr st;
     l_src_net := l_src_net st;
     l_dst_net := l_dst_net st;
     l_src_port := l_src_port st;
     l_dst_port := v;
     l_vlan_id := l_vlan_id st;
     l_post_vlan_id := l_post_vlan_id st;
     l_post_nat_src_addr := l_post_nat_src_addr st;
     l_post_nat_dst_addr := l_post_nat_dst_addr st;
     l_post_napt_src_port := l_post_napt_src_port st;
     l_post_napt_dst_port := l_post_napt_dst_port st;
     l_next_hop_addr := l_next_hop_addr st;
     l_start := l_start st;
     l_end_ := l_end_ st |}.
Definition set_vlan_id (v : N) (st : Locals) : Locals :=
  {| l_bytes := l_bytes st;
     l_packets := l_packets st;
     l_ethernet_type := l_ethernet_type st;
     l_src_mac := l_src_mac st;
     l_dst_mac := l_dst_mac st;
     l_src_addr := l_src_addr st;
     l_dst_addr := l_dst_addr st;
     l_src_net := l_src_net st;
     l_dst_net := l_dst_net st;
     l_src_port := l_src_port st;
     l_dst_port := l_dst_port st;
     l_vlan_id := v;
     l_post_vlan_id := l_post_vlan_id st;
     l_post_nat_src_addr := l_post_nat_src_addr st;
     l_post_nat_dst_addr := l_post_nat_dst_addr st;
     l_post_napt_src_port := l_post_napt_src_port st;
     l_post_napt_dst_port := l_post_napt_dst_port st;
     l_next_hop_addr := l_next_hop_addr st;
     l_start := l_start st;
     l_end_ := l_end_ st |}.
Definition set_post_vlan_id (v : N) (st : Locals) : Locals :=
  {| l_bytes := l_bytes st;
     l_packets := l_packets st;
     l_ethernet_type := l_ethernet_type st;
     l_src_mac := l_src_mac st;
     l_dst_mac := l_dst_mac st;
     l_src_addr := l_src_addr st;
     l_dst_addr := l_dst_addr st;
     l_src_net := l_src_net st;
     l_dst_net := l_dst_net st;
     l_src_port := l_src_port st;
     l_dst_port := l_dst_port st;
     l_vlan_id := l_vlan_id st;
     l_post_vlan_id := v;
     l_post_nat_src_addr := l_post_nat_src_addr st;
     l_post_nat_dst_addr := l_post_nat_dst_addr st;
     l_post_napt_src_port := l_post_napt_src_port st;
     l_post_napt_dst_port := l_post_napt_dst_port st;
     l_next_hop_addr := l_next_hop_addr st;
     l_start := l_start st;
     l_end_ := l_end_ st |}.
Definition set_post_nat_src_addr (v : IpAddr) (st : Locals) : Locals :=
  {| l_bytes := l_bytes st;
     l_packets := l_packets st;
     l_ethernet_type := l_ethernet_type st;
     l_src_mac := l_src_mac st;
     l_dst_mac := l_dst_mac st;
     l_src_addr := l_src_addr st;
     l_dst_addr := l_dst_addr st;
     l_src_net := l_src_net st;
     l_dst_net := l_dst_net st;
     l_src_port := l_src_port st;
     l_dst_port := l_dst_port st;
     l_vlan_id := l_vlan_id st;
     l_post_vlan_id := l_post_vlan_id st;
     l_post_nat_src_addr := v;
     l_post_nat_dst_addr := l_post_nat_dst_addr st;
     l_post_napt_src_port := l_post_napt_src_port st;
     l_post_napt_dst_port := l_post_napt_dst_port st;
     l_next_hop_addr := l_next_hop_addr st;
     l_start := l_start st;
     l_end_ := l_end_ st |}.
Definition set_post_nat_dst_addr (v : IpAddr) (st : Locals) : Locals :=
  {| l_bytes := l_bytes st;
     l_packets := l_packets st;
     l_ethernet_type := l_ethernet_type st;
     l_src_mac := l_src_mac st;
     l_dst_mac := l_dst_mac st;
     l_src_addr := l_src_addr st;
     l_dst_addr := l_dst_addr st;
     l_src_net := l_src_net st;
     l_dst_net := l_dst_net st;
     l_src_port := l_src_port st;
     l_dst_port := l_dst_port st;
     l_vlan_id := l_vlan_id st;
     l_post_vlan_id := l_post_vlan_id st;
     l_post_nat_src_addr := l_post_nat_src_addr st;
     l_post_nat_dst_addr := v;
     l_post_napt_src_port := l_post_napt_src_port st;
     l_post_napt_dst_port := l_post_napt_dst_port st;
     l_next_hop_addr := l_next_hop_addr st;
     l_start := l_start st;
     l_end_ := l_end_ st |}.
Definition set_post_napt_src_port (v : N) (st : Locals) : Locals :=
  {| l_bytes := l_bytes st;
     l_packets := l_packets st;
     l_ethernet_type := l_ethernet_type st;
     l_src_mac := l_src_mac st;
     l_dst_mac := l_dst_mac st;
     l_src_addr := l_src_addr st;
     l_dst_addr := l_dst_addr st;
     l_src_net := l_src_net st;
     l_dst_net := l_dst_net st;
     l_src_port := l_src_port st;
     l_dst_port := l_dst_port st;
     l_vlan_id := l_vlan_id st;
     l_post_vlan_id := l_post_vlan_id st;
     l_post_nat_src_addr := l_post_nat_src_addr st;
     l_post_nat_dst_addr := l_post_nat_dst_addr st;
     l_post_napt_src_port := v;
     l_post_napt_dst_port := l_post_napt_dst_port st;
     l_next_hop_addr := l_next_hop_addr st;
     l_start := l_start st;
     l_end_ := l_end_ st |}.
Definition set_post_napt_dst_port (v : N) (st : Locals) : Locals :=
  {| l_bytes := l_bytes st;
     l_packets := l_packets st;
     l_ethernet_type := l_ethernet_type st;
     l_src_mac := l_src_mac st;
     l_dst_mac := l_dst_mac st;
     l_src_addr := l_src_addr st;
     l_dst_addr := l_dst_addr st;
     l_src_net := l_src_net st;
     l_dst_net := l_dst_net st;
     l_src_port := l_src_port st;
     l_dst_port := l_dst_port st;
     l_vlan_id := l_vlan_id st;
     l_post_vlan_id := l_post_vlan_id st;
     l_post_nat_src_addr := l_post_nat_src_addr st;
     l_post_nat_dst_addr := l_post_nat_dst_addr st;
     l_post_napt_src_port := l_post_napt_src_port st;
     l_post_napt_dst_port := v;
     l_next_hop_addr := l_next_hop_addr st;
     l_start := l_start st;
     l_end_ := l_end_ st |}.
Definition set_next_hop_addr (v : IpAddr) (st : Locals) : Locals :=
  {| l_bytes := l_bytes st;
     l_packets := l_packets st;
     l_ethernet_type := l_ethernet_type st;
     l_src_mac := l_src_mac st;
     l_dst_mac := l_dst_mac st;
     l_src_addr := l_src_addr st;
     l_dst_addr := l_dst_addr st;
     l_src_net := l_src_net st;
     l_dst_net := l_dst_net st;
     l_src_port := l_src_port st;
     l_dst_port := l_dst_port st;
     l_vlan_id := l_vlan_id st;
     l_post_vlan_id := l_post_vlan_id st;
     l_post_nat_src_addr := l_post_nat_src_addr st;
     l_post_nat_dst_addr := l_post_nat_dst_addr st;
     l_post_napt_src_port := l_post_napt_src_port st;
     l_post_napt_dst_port := l_post_napt_dst_port st;
     l_next_hop_addr := v;
     l_start := l_start st;
     l_end_ := l_end_ st |}.
Definition set_start (v : N) (st : Locals) : Locals :=
  {| l_bytes := l_bytes st;
     l_packets := l_packets st;
     l_ethernet_type := l_ethernet_type st;
     l_src_mac := l_src_mac st;
     l_dst_mac := l_dst_mac st;
     l_src_addr := l_src_addr st;
     l_dst_addr := l_dst_addr st;
     l_src_net := l_src_net st;
     l_dst_net := l_dst_net st;
     l_src_port := l_src_port st;
     l_dst_port := l_dst_port st;
     l_vlan_id := l_vlan_id st;
     l_post_vlan_id := l_post_vlan_id st;
     l_post_nat_src_addr := l_post_nat_src_addr st;
     l_post_nat_dst_addr := l_post_nat_dst_addr st;
     l_post_napt_src_port := l_post_napt_src_port st;
     l_post_napt_dst_port := l_post_napt_dst_port st;
     l_next_hop_addr := l_next_hop_addr st;
     l_start := v;
     l_end_ := l_end_ st |}.
Definition set_end_ (v : N) (st : Locals) : Locals :=
  {| l_bytes := l_bytes st;
     l_packets := l_packets st;
     l_ethernet_type := l_ethernet_type st;
     l_src_mac := l_src_mac st;
     l_dst_mac := l_dst_mac st;
     l_src_addr := l_src_addr st;
     l_dst_addr := l_dst_addr st;
     l_src_net := l_src_net st;
     l_dst_net := l_dst_net st;
     l_src_port := l_src_port st;
     l_dst_port := l_dst_port st;
     l_vlan_id := l_vlan_id st;
     l_post_vlan_id := l_post_vlan_id st;
     l_post_nat_src_addr := l_post_nat_src_addr st;
     l_post_nat_dst_addr := l_post_nat_dst_addr st;
     l_post_napt_src_port := l_post_napt_src_port st;
     l_post_napt_dst_port := l_post_napt_dst_port st;
     l_next_hop_addr := l_next_hop_addr st;
     l_start := l_start st;
     l_end_ := v |}.

(** The body of the [match field.id] on one field's bytes. *)
Definition num_field (get : Value -> option N) (data : bytes) : outcome N :=
  v ← parse_number data; unwrap (get v).

Definition ipv4_field (data : bytes) : outcome IpAddr :=
  v ← parse_ipv4 data; a ← unwrap (as_ipv4 v); Ret (V4 a).

Definition mac_field (data : bytes) : outcome bytes :=
  v ← parse_mac data; unwrap (as_mac6 v).

Definition ipfix_field (id : N) (data : bytes) (st : Locals) : outcome Locals :=
  if id =? IPFIX_BYTES_IN then n ← num_field as_u64 data; Ret (set_bytes n st)
  else if id =? IPFIX_PACKETS_IN then n ← num_field as_u64 data; Ret (set_packets n st)
  else if id =? IPFIX_BYTES_OUT then n ← num_field as_u64 data; Ret (set_bytes n st)
  else if id =? IPFIX_PACKETS_OUT then n ← num_field as_u64 data; Ret (set_packets n st)
  else if id =? IPFIX_ETHERNET_TYPE then n ← num_field as_u16 data; Ret (set_ethernet_type n st)
  else if id =? IPFIX_FLOW_END_SYSUPTIME then n ← num_field as_u64 data; Ret (set_end_ n st)
  else if id =? IPFIX_FLOW_START_SYSUPTIME then n ← num_field as_u64 data; Ret (set_start n st)
  else if id =? IPFIX_MAC_SRC then m ← mac_field data; Ret (set_src_mac m st)
  else if id =? IPFIX_MAC_DST then m ← mac_field data; Ret (set_dst_mac m st)
  else if id =? IPFIX_IPV4_SRC_ADDR then a ← ipv4_field data; Ret (set_src_addr a st)
  else if id =? IPFIX_IPV4_DST_ADDR then a ← ipv4_field data; Ret (set_dst_addr a st)
  else if id =? IPFIX_IPV4_SRC_MASK then n ← num_field as_u8 data; Ret (set_src_net n st)
  else if id =? IPFIX_IPV4_DST_MASK then n ← num_field as_u8 data; Ret (set_dst_net n st)
  else if id =? IPFIX_SRC_PORT then n ← num_field as_u16 data; Ret (set_src_port n st)
  else if id =? IPFIX_DST_PORT then n ← num_field as_u16 data; Ret (set_dst_port n st)
  else if id =? IPFIX_VLAN_ID then n ← num_field as_u16 data; Ret (set_vlan_id n st)
  else if id =? IPFIX_POST_VLAN_ID then n ← num_field as_u16 data; Ret (set_post_vlan_id n st)
  else if id =? IPFIX_POST_NAT_IPV4_SRC_ADDR then a ← ipv4_field data; Ret (set_post_nat_src_addr a st)
  else if id =? IPFIX_POST_NAT_IPV4_DST_ADDR then a ← ipv4_field data; Ret (set_post_nat_dst_addr a st)
  else if id =? IPFIX_POST_NAPT_SRC_PORT then n ← num_field as_u16 data; Ret (set_post_napt_src_port n st)
  else if id =? IPFIX_POST_NAPT_DST_PORT then n ← num_field as_u16 data; Ret (set_post_napt_dst_port n st)
  else if id =? IPFIX_IPV4_NEXT_HOP then a ← ipv4_field data; Ret (set_next_hop_addr a st)
  else Ret st.

(** The [for field in fields] loop, with its early [break] when fewer than
    [field.length] bytes remain. *)
Fixpoint ipfix_loop (fields : list FieldSpecifier) (input : bytes) (st : Locals)
  : outcome Locals :=
  match fields with
  | [] => Ret st
  | field :: rest =>
      let len := N.to_nat (fs_length field) in
      if (length input <? len)%nat then Ret st
      else st' ← ipfix_field (fs_id field) (take len input) st;
           ipfix_loop rest (drop len input) st'
  end.

(** [Fluss] as built by [IpfixParser::parse] ([type] is always [IPFIX];
    [time_received], the clock reading, is not modelled). *)
Record Fluss := {
  flow_age : N;
  fl_bytes : N;
  fl_packets : N;
  fl_ethernet_type : N;
  fl_src_mac : bytes;
  fl_dst_mac : bytes;
  fl_src_addr : IpAddr;
  fl_dst_addr : IpAddr;
  fl_src_net : N;
  fl_dst_net : N;
  fl_src_port : N;
  fl_dst_port : N;
  fl_vlan_id : N;
  fl_post_vlan_id : N;
  fl_post_nat_src_addr : IpAddr;
  fl_post_nat_dst_addr : IpAddr;
  fl_post_napt_src_port : N;
  fl_post_napt_dst_port : N;
  fl_next_hop_addr : IpAddr;
}.

(** [Duration - Duration] panics on underflow. *)
Definition duration_sub (a b : N) : outcome N :=
  if a <? b then Panic else Ret (a - b).

Definition build_flow (st : Locals) : outcome Fluss :=
  age ← duration_sub (l_end_ st) (l_start st);
  Ret {| flow_age := age;
         fl_bytes := l_bytes st;
         fl_packets := l_packets st;
         fl_ethernet_type := l_ethernet_type st;
         fl_src_mac := l_src_mac st;
         fl_dst_mac := l_dst_mac st;
         fl_src_addr := l_src_addr st;
         fl_dst_addr := l_dst_addr st;
         fl_src_net := l_src_net st;
         fl_dst_net := l_dst_net st;
         fl_src_port := l_src_port st;
         fl_dst_port := l_dst_port st;
         fl_vlan_id := l_vlan_id st;
         fl_post_vlan_id := l_post_vlan_id st;
         fl_post_nat_src_addr := l_post_nat_src_addr st;
         fl_post_nat_dst_addr := l_post_nat_dst_addr st;
         fl_post_napt_src_port := l_post_napt_src_port st;
         fl_post_napt_dst_port := l_post_napt_dst_port st;
         fl_next_hop_addr := l_next_hop_addr st |}.

(** [IpfixParser] has no state; [IpfixParser_new] is [IpfixParser::new()]. *)
Inductive IpfixParser := IpfixParser_new.

Definition ipfix_parse (fields : list FieldSpecifier) (set : DataSet) : outcome (option Fluss) :=
  st ← ipfix_loop fields (ds_data set) init_locals;
  fl ← build_flow st;
  Ret (Some fl).

#[global] Instance IpfixParser_Parser : Parser IpfixParser Fluss :=
  fun _ fields set => ipfix_parse fields set.

(** ** Further code of [src/ipfix/parser.rs], [src/ipfix/session.rs] and
    [src/protocol.rs] *)

Definition parse_ipv6 := parse_with be_u128 Ipv6Addr.

Definition as_bytes (v : Value) : option bytes :=
  match v with
  | Bytes val => Some val
  | Unknown val => Some val
  | _ => None
  end.

(** [FieldSpecifier::read]: a fixed length takes [length] bytes; the length
    [u16::MAX] marks a variable-length field, whose own length is one byte,
    or, when that byte is [u8::MAX], the two bytes after it. *)
Definition FieldSpecifier_read (field : FieldSpecifier) (input : bytes) : IResult bytes :=
  if fs_length field <? 65535 then nom_take (fs_length field) input
  else
    ibind (be_u8 input) (fun input length =>
    if length <? 255 then nom_take length input
    else ibind (be_u16 input) (fun input length => nom_take length input)).

(** [protocol::Record] and [protocol::RecordSet]. *)
Record Record_ := {
  rec_id : N;
  rec_value : Value;
}.

Record RecordSet := {
  rs_id : N;
  rs_records : list Record_;
}.

(** [NameFn]: a field's name and its extractor. *)
Record NameFn := {
  nf_name : String.string;
  nf_parser : bytes -> outcome Value;
}.

(** [FieldParser]: its [parsers] map. *)
Record FieldParser := {
  fp_parsers : gmap N NameFn;
}.

(** The loop of [FieldParser::parse]: [field.read(input).unwrap()], then
    the registered extractor, or [Value::Unknown(data)]. *)
Fixpoint field_parser_loop (parsers : gmap N NameFn) (fields : list FieldSpecifier)
    (input : bytes) : outcome (list Record_) :=
  match fields with
  | [] => Ret []
  | field :: rest =>
      match FieldSpecifier_read field input with
      | IOk input data =>
          value ← (match parsers !! fs_id field with
                   | Some nf => nf_parser nf data
                   | None => Ret (Unknown data)
                   end);
          records ← field_parser_loop parsers rest input;
          Ret ({| rec_id := fs_id field; rec_value := value |} :: records)
      | _ => Panic
      end
  end.

Definition field_parser_parse (p : FieldParser) (fields : list FieldSpecifier) (set : DataSet)
  : outcome (option RecordSet) :=
  result ← field_parser_loop (fp_parsers p) fields (ds_data set);
  Ret (Some {| rs_id := ds_id set; rs_records := result |}).

#[global] Instance FieldParser_Parser : Parser FieldParser RecordSet :=
  field_parser_parse.

(** [FieldParserBuilder::new] / [with_field] / [build]. *)
Definition FieldParserBuilder_new : gmap N NameFn := ∅.
Definition with_field (b : gmap N NameFn) (id : N) (name : String.string)
    (fe : bytes -> outcome Value) : gmap N NameFn :=
  <[id := {| nf_name := name; nf_parser := fe |}]> b.
Definition build (b : gmap N NameFn) : FieldParser := {| fp_parsers := b |}.

(** [DebugParser<T>]: its [parsers] map and the delegate. *)
Record DebugParser (T : Type) := {
  dp_parsers : gmap N NameFn;
  delegate : T;
}.
Arguments dp_parsers {T} _.
Arguments delegate {T} _.

(** [DebugParser::set_parser] *)
Definition set_parser {T} (d : DebugParser T) (id : N) (name : String.string)
    (extractor : bytes -> outcome Value) : DebugParser T :=
  {| dp_parsers := <[id := {| nf_name := name; nf_parser := extractor |}]> (dp_parsers d);
     delegate := delegate d |}.

(** The [for] loop of [DebugParser::parse] over [set.with_fields(fields)]:
    each field read with [unwrap_or_else(panic!)], then logged.  The
    arguments of [tracing::info!] are only evaluated when the event is
    enabled, so the extractor runs only when [log_enabled]. *)
Fixpoint debug_loop (log_enabled : bool) (parsers : gmap N NameFn)
    (fields : list FieldSpecifier) (input : bytes) : outcome unit :=
  match fields with
  | [] => Ret tt
  | field :: rest =>
      match FieldSpecifier_read field input with
      | IOk input data =>
          _ ← (if log_enabled then
                 match parsers !! fs_id field with
                 | Some nf => _ ← nf_parser nf data; Ret tt
                 | None => Ret tt
                 end
               else Ret tt);
          debug_loop log_enabled parsers rest input
      | _ => Panic
      end
  end.

(** [DebugParser::parse]: the logging loop, then the delegate. *)
Definition debug_parse {T O} `{Parser T O} (log_enabled : bool) (d : DebugParser T)
    (fields : list FieldSpecifier) (set : DataSet) : outcome (option O) :=
  _ ← debug_loop log_enabled (dp_parsers d) fields (ds_data set);
  parser_parse (delegate d) fields set.

(** Bytes a list of fixed-length fields covers. *)
Definition total_length (fields : list FieldSpecifier) : nat :=
  sum_list_with (fun f => N.to_nat (fs_length f)) fields.

(** A field of fixed length ([FieldSpecifier::read] takes [length] bytes). *)
Definition fixed_length (f : FieldSpecifier) : Prop := fs_length f < 65535.

(** The field ids [IpfixParser::parse] matches on. *)
Definition ipfix_ids : list N :=
  [IPFIX_BYTES_IN; IPFIX_PACKETS_IN; IPFIX_SRC_PORT; IPFIX_IPV4_SRC_ADDR;
   IPFIX_IPV4_SRC_MASK; IPFIX_DST_PORT; IPFIX_IPV4_DST_ADDR; IPFIX_IPV4_DST_MASK;
   IPFIX_IPV4_NEXT_HOP; IPFIX_FLOW_END_SYSUPTIME; IPFIX_FLOW_START_SYSUPTIME;
   IPFIX_BYTES_OUT; IPFIX_PACKETS_OUT; IPFIX_MAC_SRC; IPFIX_VLAN_ID;
   IPFIX_POST_VLAN_ID; IPFIX_MAC_DST; IPFIX_POST_NAT_IPV4_SRC_ADDR;
   IPFIX_POST_NAT_IPV4_DST_ADDR; IPFIX_POST_NAPT_SRC_PORT; IPFIX_POST_NAPT_DST_PORT;
   IPFIX_ETHERNET_TYPE].

(** The template records of a packet's sets, in order. *)
Definition template_records (sets : list Set_) : list TemplateRecord :=
  concat (map (fun set => match set with STemplateSet records => records | _ => [] end) sets).

(** ** Wire encodings, to state round trips of the parsers

    [to_be k x]: the [k]-byte big-endian encoding of [x mod 256^k]. *)
Definition byte_of (x : N) : byte :=
  match Byte.of_N (x mod 256) with Some b => b | None => x00 end.

Fixpoint to_be (k : nat) (x : N) : bytes :=
  match k with
  | O => []
  | S k' => to_be k' (x / 256) ++ [byte_of x]
  end.

(** A field specifier as exported (RFC 7011, 3.2): bit 15 of the id marks
    an enterprise number, which follows the length. *)
Definition encode_field_specifier (fs : FieldSpecifier) : bytes :=
  match fs_enterprise_id fs with
  | Some e => to_be 2 (fs_id fs + 0x8000) ++ to_be 2 (fs_length fs) ++ to_be 4 e
  | None => to_be 2 (fs_id fs) ++ to_be 2 (fs_length fs)
  end.

(** The specifiers [parse_field_specifier] gives back: a 15-bit id, a
    16-bit length, a 32-bit enterprise number, and (because of its
    [id > 0x8000] test) a non-zero id when there is an enterprise number. *)
Definition fs_wf (fs : FieldSpecifier) : bool :=
  (fs_id fs <? 0x8000) && (fs_length fs <? 0x10000) &&
  match fs_enterprise_id fs with
  | Some e => (e <? 0x100000000) && negb (fs_id fs =? 0)
  | None => true
  end.

Definition encode_template_record (r : TemplateRecord) : bytes :=
  to_be 2 (tr_id r) ++ to_be 2 (N.of_nat (length (tr_fields r))) ++
  concat (map encode_field_specifier (tr_fields r)).

Definition tr_wf (r : TemplateRecord) : bool :=
  (tr_id r <? 0x10000) && (N.of_nat (length (tr_fields r)) <? 0x10000) &&
  forallb fs_wf (tr_fields r).

(** A set: id, total length (header included), body. *)
Definition encode_set (set_id : N) (body : bytes) : bytes :=
  to_be 2 set_id ++ to_be 2 (4 + N.of_nat (length body)) ++ body.

(** A variable-length field's value with its length prefix. *)
Definition encode_varlen (data : bytes) : bytes :=
  if (length data <? 255)%nat then to_be 1 (N.of_nat (length data)) ++ data
  else [xff] ++ to_be 2 (N.of_nat (length data)) ++ data.

(** A parsed set, encoded again (an options set with an empty body). *)
Definition encode_set_ (set : Set_) : bytes :=
  match set with
  | SDataSet d => encode_set (ds_id d) (ds_data d)
  | SOptionsSet => encode_set 3 []
  | STemplateSet recs => encode_set 2 (concat (map encode_template_record recs))
  end.

(** The sets [parse_set] gives back from their encoding: a data set needs an
    id other than 2 and 3, a template set at least one record. *)
Definition set_wf (set : Set_) : bool :=
  match set with
  | SDataSet d =>
      negb (ds_id d =? 2) && negb (ds_id d =? 3) && (ds_id d <? 0x10000) &&
      (N.of_nat (length (ds_data d)) <? 0xfffc)
  | SOptionsSet => true
  | STemplateSet recs =>
      match recs with [] => false | _ => true end && forallb tr_wf recs &&
      (N.of_nat (length (concat (map encode_template_record recs))) <? 0xfffc)
  end.

(** A message: version, total length, the three 32-bit header words, then
    the sets. *)
Definition encode_message (version export seq odid : N) (body : bytes) : bytes :=
  to_be 2 version ++ to_be 2 (16 + N.of_nat (length body)) ++
  to_be 4 export ++ to_be 4 seq ++ to_be 4 odid ++ body.

(** ** Sample inputs *)

Definition one_template : list TemplateRecord :=
  [{| tr_id := 256;
      tr_fields := [{| fs_id := 8; fs_length := 4; fs_enterprise_id := None |};
                    {| fs_id := 12; fs_length := 4; fs_enterprise_id := None |}] |}].

Definition two_sets : list Set_ :=
  [SDataSet {| ds_id := 256; ds_data := [x01; x02; x03; x04] |}; SOptionsSet;
   STemplateSet one_template].

(** sourceIPv4Address (4 bytes) and sourceTransportPort (2 bytes). *)
Definition addr_fields : list FieldSpecifier :=
  [{| fs_id := 8; fs_length := 4; fs_enterprise_id := None |};
   {| fs_id := 7; fs_length := 2; fs_enterprise_id := None |}].

Definition addr_set : DataSet :=
  {| ds_id := 256; ds_data := [x0a; x00; x00; x01; x00; x50; x00] |}.

Definition addr_set_short : DataSet :=
  {| ds_id := 256; ds_data := [x0a; x00; x00; x01; x00] |}.

Definition ipv4_parser : FieldParser :=
  build (with_field FieldParserBuilder_new 8 String.EmptyString parse_ipv4).

Definition debug_ipfix : DebugParser IpfixParser :=
  {| dp_parsers := ∅; delegate := IpfixParser_new |}.

(** ** Reading of the claims: the spec's wording *)

(** Integer width of a numeric [Value] (in bits) and its number; [None] for
    the other variants. *)
Definition int_width (v : Value) : option N :=
  match v with
  | U8 _ => Some 8 | U16 _ => Some 16 | U32 _ => Some 32 | U64 _ => Some 64
  | _ => None
  end.

Definition int_value (v : Value) : option N :=
  match v with
  | U8 x | U16 x | U32 x | U64 x => Some x
  | _ => None
  end.

(** The spec's coercion to [N] bits: the same number when [N >= w], absent
    when [N < w] or for a non-integer value. *)
Definition coerce_spec (bits : N) (v : Value) : option N :=
  match int_width v with
  | Some w => if w <=? bits then int_value v else None
  | None => None
  end.

(** The packet with another version field. *)
Definition set_version (v : N) (p : Packet) : Packet :=
  {| version := v; export_time := export_time p; sequence_number := sequence_number p;
     observation_domain_id := observation_domain_id p; sets := sets p |}.

(** ** Concrete inputs *)

(** A message of version 9 (header 16 bytes) with one data set
    (id 256, four data bytes). *)
Definition packet_v9 : bytes :=
  [x00; x09; x00; x18; x00; x00; x00; x01; x00; x00; x00; x02; x00; x00; x00; x03;
   x01; x00; x00; x08; x0a; x00; x00; x01].

(** A version-10 message whose only set has the reserved set id 0. *)
Definition packet_set0 : bytes :=
  [x00; x0a; x00; x18; x00; x00; x00; x01; x00; x00; x00; x02; x00; x00; x00; x03;
   x00; x00; x00; x08; x0a; x00; x00; x01].

(** ** Generic facts *)

Lemma be_value_app1 l b :
  be_value (l ++ [b]) = be_value l * 256 + Byte.to_N b.
Proof. unfold be_value. by rewrite fold_left_app. Qed.

Lemma be_value_two b0 b1 : be_value [b0; b1] = Byte.to_N b0 * 256 + Byte.to_N b1.
Proof. reflexivity. Qed.

Lemma byte_to_N_lt b : Byte.to_N b < 256.
Proof. destruct b; vm_compute; reflexivity. Qed.

(** ** Value coercions *)

(** Claim C9: [as_u8], [as_u16], [as_u32] and [as_u64] agree with the
    spec's coercion: a numeric value of width [w] keeps its number for every
    target width [N >= w] and gives [None] for [N < w]; every non-integer
    variant gives [None]; all four are total. *)
Theorem value_coercion_monotone (v : Value) :
  as_u8 v = coerce_spec 8 v /\ as_u16 v = coerce_spec 16 v /\
  as_u32 v = coerce_spec 32 v /\ as_u64 v = coerce_spec 64 v.
Proof. destruct v; repeat split; reflexivity. Qed.

(** ** parse_number *)

(** Claim C8 (amended): [parse_number] decodes an input of length 1, 2, 4
    or 8 as the big-endian number, tagged [U8], [U16], [U32] or [U64]; for
    any other length it panics (there is no error value). *)
Theorem parse_number_spec (b : bytes) :
  parse_number b =
    match length b with
    | 1%nat => Ret (U8 (be_value b))
    | 2%nat => Ret (U16 (be_value b))
    | 4%nat => Ret (U32 (be_value b))
    | 8%nat => Ret (U64 (be_value b))
    | _ => Panic
    end.
Proof.
  destruct b as [|b0 [|b1 [|b2 [|b3 [|b4 [|b5 [|b6 [|b7 [|b8 rest]]]]]]]]];
    reflexivity.
Qed.

(** Claim C8: counterexample: a 3-byte input makes [parse_number] panic
    instead of returning an error value. *)
Lemma parse_number_width3_panics : parse_number [x00; x01; x02] = Panic.
Proof. reflexivity. Qed.

(** ** Field specifiers *)

(** The masked id is below [0x8000], and the enterprise number is read
    exactly when the raw id exceeds [0x8000]. *)
Lemma parse_field_specifier_shape i0 i1 l0 l1 rest fs rest' :
  parse_field_specifier (i0 :: i1 :: l0 :: l1 :: rest) = IOk rest' fs ->
  fs_id fs = N.land (be_value [i0; i1]) 0x7fff /\ fs_id fs <= 0x7fff /\
  (is_Some (fs_enterprise_id fs) <-> 0x8000 < be_value [i0; i1]).
Proof.
  unfold parse_field_specifier. cbn [be_u16 ibind].
  destruct (0x8000 <? be_value [i0; i1]) eqn:E.
  - apply N.ltb_lt in E. destruct (be_u32 rest); cbn; intros Hr; try discriminate.
    inversion Hr; subst; cbn.
    split; [reflexivity | split; [apply N.land_le_r | split; [intros _; exact E | by eexists]]].
  - apply N.ltb_ge in E. cbn. intros Hr. inversion Hr; subst; cbn.
    split; [reflexivity | split; [apply N.land_le_r |]].
    split; [intros [x Hx]; discriminate | intros H].
    unfold be_value in E; cbn in E; exfalso; lia.
Qed.

(** Claim C7: a raw id of exactly [0x8000] has bit 15 set, yet
    [parse_field_specifier] ([cond!(id > 0x8000, ..)]) does not read the
    four enterprise bytes: they are left in the input. *)
Theorem parse_field_specifier_0x8000 :
  parse_field_specifier [x80; x00; x00; x04; xde; xad; xbe; xef] =
    IOk [xde; xad; xbe; xef] {| fs_id := 0; fs_length := 4; fs_enterprise_id := None |}.
Proof. reflexivity. Qed.

(** ** Message version *)

(** Claim C2 (amended): [parse] does not look at the version field: on two
    inputs that differ only in their first two bytes it gives the same
    result, except that a parsed [Packet] carries the version that was
    read. *)
Theorem parse_ignores_version (b0 b1 c0 c1 : byte) (rest : bytes) :
  parse (c0 :: c1 :: rest) =
    match parse (b0 :: b1 :: rest) with
    | PacketOk p => PacketOk (set_version (be_value [c0; c1]) p)
    | r => r
    end.
Proof.
  unfold parse, do_parse. cbn [be_u16 ibind].
  destruct rest as [|r0 [|r1 rest]]; cbn [be_u16 ibind]; try reflexivity.
  destruct (checked_sub (be_value [r0; r1]) 4) as [n|]; [|reflexivity].
  unfold ibind.
  destruct (nom_take n rest) as [remaining input| |]; try reflexivity.
  destruct (be_u32 input) as [i1 ?| |]; try reflexivity.
  destruct (be_u32 i1) as [i2 ?| |]; try reflexivity.
  destruct (be_u32 i2) as [i3 ?| |]; try reflexivity.
  destruct (many1 parse_set i3) as [i4 ?| |]; try reflexivity.
  destruct i4, remaining; reflexivity.
Qed.

(** Claim C2: counterexample: a message of version 9 is parsed into a
    [Packet] (of version 9), not rejected. *)
Lemma parse_accepts_version_9 :
  parse packet_v9 =
    PacketOk {| version := 9; export_time := 1; sequence_number := 2;
                observation_domain_id := 3;
                sets := [SDataSet {| ds_id := 256; ds_data := [x0a; x00; x00; x01] |}] |}.
Proof. vm_compute. reflexivity. Qed.

(** ** Set ids *)

(** Claim C6 (amended): [parse_set] parses a set whose id is neither 2 nor
    3 (the reserved ids 0, 1 and 4..255 included) as a data set with that
    id; no set id is rejected. *)
Theorem parse_set_other_id_is_data_set (b0 b1 l0 l1 : byte) (data rest : bytes) :
  be_value [b0; b1] <> 2 -> be_value [b0; b1] <> 3 ->
  be_value [l0; l1] = 4 + N.of_nat (length data) ->
  parse_set (b0 :: b1 :: l0 :: l1 :: data ++ rest) =
    IOk rest (SDataSet {| ds_id := be_value [b0; b1]; ds_data := data |}).
Proof.
  intros H2 H3 Hlen.
  unfold parse_set, peek_be_u16. cbn [be_u16 ibind].
  apply N.eqb_neq in H2, H3. rewrite H2, H3.
  unfold parse_data_set. cbn [be_u16 ibind].
  unfold checked_sub. rewrite Hlen.
  replace (4 <=? 4 + N.of_nat (length data)) with true by (symmetry; apply N.leb_le; lia).
  replace (4 + N.of_nat (length data) - 4) with (N.of_nat (length data)) by lia.
  unfold nom_take. rewrite Nat2N.id, length_app.
  replace (length data <=? length data + length rest)%nat with true
    by (symmetry; apply Nat.leb_le; lia).
  cbn [ibind]. rewrite take_app_length, drop_app_length. reflexivity.
Qed.

Lemma parse_set_other_id_is_data_set_witness :
  parse_set [x00; x00; x00; x06; xaa; xbb] =
    IOk [] (SDataSet {| ds_id := 0; ds_data := [xaa; xbb] |}).
Proof.
  apply (parse_set_other_id_is_data_set x00 x00 x00 x06 [xaa; xbb] []);
    vm_compute; congruence.
Defined.

(** Claim C6: counterexample: a message whose only set has id 0 is parsed
    into a [Packet] holding that set as a data set. *)
Lemma parse_accepts_set_id_0 :
  parse packet_set0 =
    PacketOk {| version := 10; export_time := 1; sequence_number := 2;
                observation_domain_id := 3;
                sets := [SDataSet {| ds_id := 0; ds_data := [x0a; x00; x00; x01] |}] |}.
Proof. vm_compute. reflexivity. Qed.

(** ** The flow projector *)

(** The flow built from the initial locals (no field read). *)
Definition default_flow : Fluss :=
  {| flow_age := 0; fl_bytes := 0; fl_packets := 0; fl_ethernet_type := 0;
     fl_src_mac := broadcast; fl_dst_mac := broadcast;
     fl_src_addr := localhost; fl_dst_addr := localhost;
     fl_src_net := 0; fl_dst_net := 0; fl_src_port := 0; fl_dst_port := 0;
     fl_vlan_id := 0; fl_post_vlan_id := 0;
     fl_post_nat_src_addr := localhost; fl_post_nat_dst_addr := localhost;
     fl_post_napt_src_port := 0; fl_post_napt_dst_port := 0;
     fl_next_hop_addr := localhost |}.

(** A template of the two uptime fields (end, then start), four bytes
    each, and a record with end 0 ms and start 1 ms. *)
Definition uptime_fields : list FieldSpecifier :=
  [{| fs_id := IPFIX_FLOW_END_SYSUPTIME; fs_length := 4; fs_enterprise_id := None |};
   {| fs_id := IPFIX_FLOW_START_SYSUPTIME; fs_length := 4; fs_enterprise_id := None |}].

Definition uptime_end_before_start : DataSet :=
  {| ds_id := 256; ds_data := [x00; x00; x00; x00; x00; x00; x00; x01] |}.

Lemma outcome_bind_ret {A} (m : outcome A) : (x ← m; Ret x) = m.
Proof. by destruct m. Qed.

(** Reading a field list whose lengths fit in the input, then more fields,
    is reading the first list, then the rest on what it left. *)
Lemma ipfix_loop_app (pre rest : list FieldSpecifier) (input : bytes) (st : Locals) :
  (stride pre <= length input)%nat ->
  ipfix_loop (pre ++ rest) input st =
    (st' ← ipfix_loop pre input st; ipfix_loop rest (drop (stride pre) input) st').
Proof.
  revert input st. induction pre as [|f pre IH]; intros input st Hfit.
  - cbn. reflexivity.
  - cbn [stride map sum_list] in Hfit |- *. fold (stride pre) in Hfit |- *.
    cbn [app ipfix_loop]. unfold id in Hfit |- *.
    replace (length input <? N.to_nat (fs_length f))%nat with false
      by (symmetry; apply Nat.ltb_ge; lia).
    destruct (ipfix_field (fs_id f) (take (N.to_nat (fs_length f)) input) st) as [st1|];
      [|reflexivity].
    cbn [mbind outcome_bind].
    rewrite IH by (rewrite length_drop; lia).
    by rewrite drop_drop.
Qed.

(** [build_flow] fails exactly when the end time precedes the start time,
    and otherwise [flow_age] is their difference. *)
Lemma build_flow_age (st : Locals) :
  match build_flow st with
  | Ret fl => l_start st <= l_end_ st /\ flow_age fl = l_end_ st - l_start st
  | Panic => l_end_ st < l_start st
  end.
Proof.
  unfold build_flow, duration_sub.
  destruct (l_end_ st <? l_start st) eqn:E; cbn.
  - by apply N.ltb_lt.
  - apply N.ltb_ge in E. split; [exact E | reflexivity].
Qed.

(** Claim C5: with the end uptime (0 ms) before the start uptime (1 ms),
    [IpfixParser::parse] panics on [end - start] (a [Duration]
    subtraction) instead of giving a flow of age 0. *)
Theorem ipfix_parse_end_before_start_panics :
  ipfix_parse uptime_fields uptime_end_before_start = Panic.
Proof. vm_compute. reflexivity. Qed.

(** Claim C10 (amended): [IpfixParser::parse] never returns [None], for
    any field list and data set; when the input left at field [f] is
    shorter than [f]'s length, it stops there: the result is that of the
    fields before [f] alone; with no field read, the result is the flow of
    default values. *)
Theorem ipfix_parse_truncated (pre : list FieldSpecifier) (f : FieldSpecifier)
    (post : list FieldSpecifier) (set : DataSet) :
  (stride pre <= length (ds_data set))%nat ->
  (length (ds_data set) < stride pre + N.to_nat (fs_length f))%nat ->
  ipfix_parse (pre ++ f :: post) set = ipfix_parse pre set /\
  (forall (fields : list FieldSpecifier) (set' : DataSet), ipfix_parse fields set' <> Ret None) /\
  ipfix_parse [] set = Ret (Some default_flow).
Proof.
  intros Hfit Hshort. unfold ipfix_parse.
  rewrite ipfix_loop_app by exact Hfit.
  assert (Hstop : forall st, ipfix_loop (f :: post) (drop (stride pre) (ds_data set)) st = Ret st).
  { intros st. cbn [ipfix_loop].
    replace (length (drop (stride pre) (ds_data set)) <? N.to_nat (fs_length f))%nat
      with true by (symmetry; apply Nat.ltb_lt; rewrite length_drop; lia).
    reflexivity. }
  split; [|split].
  - destruct (ipfix_loop pre (ds_data set) init_locals) as [st|]; [|reflexivity].
    cbn [mbind outcome_bind]. by rewrite Hstop.
  - intros fields set'.
    destruct (ipfix_loop fields (ds_data set') init_locals) as [st|]; [|discriminate].
    cbn [mbind outcome_bind].
    destruct (build_flow st); discriminate.
  - reflexivity.
Qed.

Definition trunc_pre : list FieldSpecifier :=
  [{| fs_id := IPFIX_SRC_PORT; fs_length := 2; fs_enterprise_id := None |}].
Definition trunc_field : FieldSpecifier :=
  {| fs_id := IPFIX_IPV4_SRC_ADDR; fs_length := 4; fs_enterprise_id := None |}.
Definition trunc_post : list FieldSpecifier :=
  [{| fs_id := IPFIX_BYTES_IN; fs_length := 3; fs_enterprise_id := None |}].
Definition trunc_set : DataSet := {| ds_id := 256; ds_data := [x00; x50; x0a; x00] |}.

Lemma ipfix_parse_truncated_witness :
  (ipfix_parse (trunc_pre ++ trunc_field :: trunc_post) trunc_set =
     ipfix_parse trunc_pre trunc_set) /\
  (forall (fields : list FieldSpecifier) (set' : DataSet), ipfix_parse fields set' <> Ret None) /\
  (ipfix_parse [] trunc_set = Ret (Some default_flow)).
Proof.
  apply (ipfix_parse_truncated trunc_pre trunc_field trunc_post trunc_set);
    vm_compute; lia.
Defined.

(** Claim C10: counterexample: the input is long enough for the field, but
    a 3-byte [octetDeltaCount] makes [parse_number] panic, so
    [IpfixParser::parse] does not return [Some]. *)
Lemma ipfix_parse_width3_panics :
  ipfix_parse [{| fs_id := IPFIX_BYTES_IN; fs_length := 3; fs_enterprise_id := None |}]
              {| ds_id := 256; ds_data := [x00; x00; x01] |} = Panic.
Proof. vm_compute. reflexivity. Qed.

(** ** Data sets and the template cache *)

(** [chunks] on an input of [n * size + r] elements, [r < size]: the [n]
    full pieces, then the [r] trailing elements as one more piece when
    [r > 0]. *)
Lemma chunks_fuel_spec {A} (size n r fuel : nat) (l : list A) :
  (0 < size)%nat -> length l = (n * size + r)%nat -> (r < size)%nat ->
  (length l <= fuel)%nat ->
  chunks_fuel fuel size l =
    map (fun i => take size (drop (i * size) l)) (seq 0 n) ++
    (if (r =? 0)%nat then [] else [drop (n * size) l]).
Proof.
  intros Hsize. revert l fuel. induction n as [|n IH]; intros l fuel Hlen Hr Hfuel.
  - cbn [seq map app]. rewrite Nat.mul_0_l, drop_0.
    destruct l as [|a l'].
    + cbn in Hlen. subst r. destruct fuel; reflexivity.
    + destruct fuel as [|fuel]; [cbn in Hfuel; lia|].
      cbn in Hlen. destruct (r =? 0)%nat eqn:E; [apply Nat.eqb_eq in E; lia|].
      cbn [chunks_fuel]. rewrite take_ge, drop_ge by (cbn; lia).
      destruct fuel; reflexivity.
  - destruct l as [|a l']; [cbn in Hlen; lia|].
    destruct fuel as [|fuel]; [cbn in Hfuel; lia|].
    cbn [chunks_fuel]. rewrite (IH (drop size (a :: l')) fuel)
      by (try rewrite length_drop; cbn in *; lia).
    cbn [seq map app]. rewrite Nat.mul_0_l, drop_0. f_equal.
    rewrite <- seq_shift, map_map. f_equal.
    + apply map_ext. intros i. rewrite drop_drop. reflexivity.
    + destruct (r =? 0)%nat; [reflexivity|]. rewrite drop_drop. reflexivity.
Qed.

Lemma chunks_spec {A} (size n r : nat) (l : list A) :
  (0 < size)%nat -> length l = (n * size + r)%nat -> (r < size)%nat ->
  chunks size l =
    map (fun i => take size (drop (i * size) l)) (seq 0 n) ++
    (if (r =? 0)%nat then [] else [drop (n * size) l]).
Proof. intros. apply chunks_fuel_spec; lia. Qed.

(** When every projector call on the given arguments gives an output,
    [collect_some] keeps one output per argument. *)
Lemma collect_some_Forall {A B} (g : A -> outcome (option B)) (cs : list A) :
  Forall (fun c => exists o, g c = Ret (Some o)) cs ->
  exists outs, collect_some (map g cs) = Ret outs /\ length outs = length cs.
Proof.
  intros Hg. induction Hg as [|c cs [o Ho] _ [outs [Hc Hlen]]].
  - exists []. split; reflexivity.
  - exists (o :: outs). cbn [map collect_some].
    rewrite Ho, Hc. split; [reflexivity | cbn; lia].
Qed.

(** Inserting records with other ids leaves the entry for [T] alone. *)
Lemma fold_insert_other (T : N) (post : list TemplateRecord)
    (m : gmap N (list FieldSpecifier)) :
  Forall (fun r => tr_id r <> T) post ->
  fold_left (fun m r => <[tr_id r := tr_fields r]> m) post m !! T = m !! T.
Proof.
  revert m. induction post as [|r post IH]; intros m Hpost; [reflexivity|].
  inversion Hpost as [|? ? Hr Hrest]; subst. cbn [fold_left].
  rewrite IH by exact Hrest. by apply lookup_insert_ne.
Qed.

(** One template record with id 500 (not known to the projector), four
    bytes long, installed under id 256; a data set of five bytes. *)
Definition stride4_session : Session IpfixParser :=
  {| templates := {[ 256 := [{| fs_id := 500; fs_length := 4; fs_enterprise_id := None |}] ]};
     parser := IpfixParser_new |}.

Definition five_bytes_set : DataSet :=
  {| ds_id := 256; ds_data := [x01; x02; x03; x04; x05] |}.

(** A session with an empty cache and a data set for template 256. *)
Definition empty_session : Session IpfixParser :=
  {| templates := ∅; parser := IpfixParser_new |}.

Definition lone_data_packet : Packet :=
  {| version := 10; export_time := 1; sequence_number := 2; observation_domain_id := 3;
     sets := [SDataSet {| ds_id := 256; ds_data := [x0a; x00; x00; x01] |}] |}.

Section SessionTheorems.
Context {P Output : Type} `{Parser P Output}.

(** Claim C1 (code bug): for a template of stride [S > 0] and a payload of
    [n * S + r] bytes, [r < S], [Session::parse_data_set] calls the
    projector once on each of the [n] full records, in order, and, when
    [r > 0], once more on the [r] trailing bytes instead of ignoring them;
    when each of these calls yields an output there are [n] outputs if
    [r = 0] and [n + 1] otherwise. *)
Theorem parse_data_set_chunks (s : Session P) (set : DataSet)
    (fields : list FieldSpecifier) (n r : nat) :
  templates s !! ds_id set = Some fields ->
  (0 < stride fields)%nat ->
  length (ds_data set) = (n * stride fields + r)%nat ->
  (r < stride fields)%nat ->
  session_parse_data_set s set =
    collect_some
      (map (fun data => parser_parse (parser s) fields {| ds_id := ds_id set; ds_data := data |})
         (map (fun i => take (stride fields) (drop (i * stride fields) (ds_data set))) (seq 0 n) ++
          (if (r =? 0)%nat then [] else [drop (n * stride fields) (ds_data set)]))) /\
  (Forall (fun data => exists o,
      parser_parse (parser s) fields {| ds_id := ds_id set; ds_data := data |} = Ret (Some o))
     (map (fun i => take (stride fields) (drop (i * stride fields) (ds_data set))) (seq 0 n) ++
      (if (r =? 0)%nat then [] else [drop (n * stride fields) (ds_data set)])) ->
   exists outs, session_parse_data_set s set = Ret outs /\
                length outs = (n + if (r =? 0)%nat then 0 else 1)%nat).
Proof.
  intros Hfields Hpos Hlen Hr.
  assert (Heq : session_parse_data_set s set =
    collect_some
      (map (fun data => parser_parse (parser s) fields {| ds_id := ds_id set; ds_data := data |})
         (chunks (stride fields) (ds_data set)))).
  { unfold session_parse_data_set, decode_with. rewrite Hfields.
    replace (stride fields =? 0)%nat with false by (symmetry; apply Nat.eqb_neq; lia).
    reflexivity. }
  rewrite (chunks_spec _ n r) in Heq by assumption.
  split; [exact Heq|].
  intros Hall. rewrite Heq.
  destruct (collect_some_Forall _
              (map (fun i => take (stride fields) (drop (i * stride fields) (ds_data set))) (seq 0 n) ++
               (if (r =? 0)%nat then [] else [drop (n * stride fields) (ds_data set)])) Hall)
    as [outs [Houts Hlen']].
  exists outs. split; [exact Houts|].
  rewrite Hlen', length_app, length_map, length_seq.
  destruct (r =? 0)%nat; reflexivity.
Qed.

(** Claim C3: installing, in one template set, records whose last one with
    id [T] is [r] (an entry for [T] being cached already) makes the cache map
    [T] to exactly [r]'s fields; every data set with id [T] is then decoded
    under those fields, and the sets after the template set are processed
    against the updated cache. *)
Theorem add_records_replaces (s : Session P) (T : N) (old : list FieldSpecifier)
    (pre post : list TemplateRecord) (r : TemplateRecord) :
  templates s !! T = Some old ->
  tr_id r = T ->
  Forall (fun r' => tr_id r' <> T) post ->
  templates (add_records s (pre ++ r :: post)) !! T = Some (tr_fields r) /\
  (forall set, ds_id set = T ->
     session_parse_data_set (add_records s (pre ++ r :: post)) set =
       decode_with (parser s) (tr_fields r) set) /\
  (forall rest, session_parse_sets s (STemplateSet (pre ++ r :: post) :: rest) =
                session_parse_sets (add_records s (pre ++ r :: post)) rest).
Proof.
  intros _ Hid Hpost.
  assert (Hlook : templates (add_records s (pre ++ r :: post)) !! T = Some (tr_fields r)).
  { cbn [templates add_records]. rewrite fold_left_app. cbn [fold_left].
    rewrite fold_insert_other by exact Hpost. rewrite Hid. apply lookup_insert_eq. }
  split; [exact Hlook | split].
  - intros set Hset. unfold session_parse_data_set. rewrite Hset, Hlook. reflexivity.
  - intros rest. reflexivity.
Qed.

(** Claim C4: a packet holding only a data set whose template id has no
    cache entry yields no output and leaves the session, hence the cache,
    as it was. *)
Theorem template_miss_no_output (s : Session P) (packet : Packet) (T : N) (data : bytes) :
  templates s !! T = None ->
  sets packet = [SDataSet {| ds_id := T; ds_data := data |}] ->
  session_parse s packet = Ret (s, []).
Proof.
  intros Hmiss Hsets. unfold session_parse. rewrite Hsets.
  cbn [session_parse_sets]. unfold session_parse_data_set. cbn [ds_id].
  rewrite Hmiss. reflexivity.
Qed.

End SessionTheorems.

Lemma parse_data_set_chunks_witness :
  session_parse_data_set stride4_session five_bytes_set =
    collect_some
      (map (fun data => parser_parse (parser stride4_session)
                          [{| fs_id := 500; fs_length := 4; fs_enterprise_id := None |}]
                          {| ds_id := 256; ds_data := data |})
         [[x01; x02; x03; x04]; [x05]]) /\
  (exists outs, session_parse_data_set stride4_session five_bytes_set = Ret outs /\
                length outs = 2%nat).
Proof.
  destruct (parse_data_set_chunks stride4_session five_bytes_set
              [{| fs_id := 500; fs_length := 4; fs_enterprise_id := None |}] 1 1)
    as [Heq Hcount]; [reflexivity | vm_compute; lia | reflexivity | vm_compute; lia |].
  split; [exact Heq|].
  apply Hcount. vm_compute.
  repeat constructor; eexists; vm_compute; reflexivity.
Defined.

(** Claim C1, failing input: stride 4, payload of 5 bytes ([n = 1],
    [r = 1]): two flows are emitted, the second from the one trailing
    byte. *)
Lemma parse_data_set_trailing_byte_emits :
  session_parse_data_set stride4_session five_bytes_set = Ret [default_flow; default_flow].
Proof. vm_compute. reflexivity. Qed.

Lemma add_records_replaces_witness :
  templates (add_records stride4_session
    [{| tr_id := 256; tr_fields := [] |}]) !! 256 = Some [].
Proof.
  apply (add_records_replaces stride4_session 256
           [{| fs_id := 500; fs_length := 4; fs_enterprise_id := None |}]
           [] [] {| tr_id := 256; tr_fields := [] |}); [reflexivity | reflexivity | constructor].
Defined.

Lemma template_miss_no_output_witness :
  session_parse empty_session lone_data_packet = Ret (empty_session, []).
Proof. apply (template_miss_no_output empty_session lone_data_packet 256 [x0a; x00; x00; x01]); reflexivity. Defined.

(** ** Encodings: basic facts *)

Lemma to_N_byte_of x : Byte.to_N (byte_of x) = x mod 256.
Proof.
  unfold byte_of. destruct (Byte.of_N (x mod 256)) as [b|] eqn:E.
  - by apply Byte.to_of_N.
  - apply Byte.of_N_None_iff in E. pose proof (N.mod_lt x 256). lia.
Qed.

Lemma length_to_be k x : length (to_be k x) = k.
Proof.
  revert x. induction k as [|k IH]; intros x; [reflexivity|].
  cbn [to_be]. rewrite length_app, IH. cbn. lia.
Qed.

Lemma be_value_to_be k x : be_value (to_be k x) = x mod 256 ^ N.of_nat k.
Proof.
  revert x. induction k as [|k IH]; intros x.
  - cbn. by rewrite N.mod_1_r.
  - cbn [to_be]. rewrite be_value_app1, IH, to_N_byte_of.
    rewrite Nat2N.inj_succ, N.pow_succ_r', N.Div0.mod_mul_r. lia.
Qed.

Lemma be_word_to_be k x rest :
  be_word k (to_be k x ++ rest) = IOk rest (x mod 256 ^ N.of_nat k).
Proof.
  unfold be_word. rewrite length_app, length_to_be.
  replace (k <=? k + length rest)%nat with true by (symmetry; apply Nat.leb_le; lia).
  rewrite take_app_length', drop_app_length' by (by rewrite length_to_be).
  by rewrite be_value_to_be.
Qed.

Lemma be_u8_to_be x rest : be_u8 (to_be 1 x ++ rest) = IOk rest (x mod 256).
Proof. cbn. by rewrite to_N_byte_of. Qed.

Lemma be_u16_to_be x rest : be_u16 (to_be 2 x ++ rest) = IOk rest (x mod 0x10000).
Proof.
  assert (H : to_be 2 x = [byte_of (x / 256); byte_of x]) by reflexivity.
  rewrite H. cbn [app be_u16]. rewrite <- H, be_value_to_be. reflexivity.
Qed.

Lemma be_u32_to_be x rest : be_u32 (to_be 4 x ++ rest) = IOk rest (x mod 0x100000000).
Proof.
  assert (H : to_be 4 x = [byte_of (x / 256 / 256 / 256); byte_of (x / 256 / 256);
                           byte_of (x / 256); byte_of x]) by reflexivity.
  rewrite H. cbn [app be_u32]. rewrite <- H, be_value_to_be. reflexivity.
Qed.

Lemma nom_take_app n data rest :
  N.to_nat n = length data -> nom_take n (data ++ rest) = IOk rest data.
Proof.
  intros Hn. unfold nom_take. rewrite length_app, Hn.
  replace (length data <=? length data + length rest)%nat with true
    by (symmetry; apply Nat.leb_le; lia).
  by rewrite take_app_length, drop_app_length.
Qed.

(** ** Number and address decoding *)

(** [parse_number] decodes the big-endian encodings of every width it
    accepts: 1, 2, 4 and 8 bytes give [U8], [U16], [U32] and [U64] of the
    encoded number. *)
Theorem parse_number_roundtrip (x : N) :
  parse_number (to_be 1 x) = Ret (U8 (x mod 256)) /\
  parse_number (to_be 2 x) = Ret (U16 (x mod 0x10000)) /\
  parse_number (to_be 4 x) = Ret (U32 (x mod 0x100000000)) /\
  parse_number (to_be 8 x) = Ret (U64 (x mod 0x10000000000000000)).
Proof.
  unfold parse_number. rewrite !length_to_be. cbn [Nat.eqb].
  unfold parse_u8, parse_u16, parse_u32, parse_u64, parse_with, be_u64.
  repeat split.
  - rewrite <- (app_nil_r (to_be 1 x)), be_u8_to_be. reflexivity.
  - rewrite <- (app_nil_r (to_be 2 x)), be_u16_to_be. reflexivity.
  - rewrite <- (app_nil_r (to_be 4 x)), be_u32_to_be. reflexivity.
  - rewrite <- (app_nil_r (to_be 8 x)), be_word_to_be. reflexivity.
Qed.

(** ** Field specifiers on the wire *)

Lemma land_7fff_small x : x < 0x8000 -> N.land x 0x7fff = x.
Proof.
  intros Hx. change 0x7fff with (N.ones 15). rewrite N.land_ones.
  apply N.mod_small. exact Hx.
Qed.

Lemma land_7fff_flag x : x < 0x8000 -> N.land (x + 0x8000) 0x7fff = x.
Proof.
  intros Hx. change 0x7fff with (N.ones 15). rewrite N.land_ones.
  change (2 ^ 15) with 0x8000.
  rewrite <- (N.mul_1_l 0x8000) at 1. rewrite N.Div0.mod_add.
  apply N.mod_small. exact Hx.
Qed.

Lemma field_specifier_encoded (fs : FieldSpecifier) (rest : bytes) :
  fs_wf fs = true ->
  parse_field_specifier (encode_field_specifier fs ++ rest) = IOk rest fs.
Proof.
  destruct fs as [id len ent]. unfold fs_wf, encode_field_specifier. cbn [fs_id fs_length fs_enterprise_id].
  intros Hwf. apply andb_prop in Hwf as [Hwf Hent]. apply andb_prop in Hwf as [Hid Hlen].
  apply N.ltb_lt in Hid, Hlen.
  unfold parse_field_specifier.
  destruct ent as [e|].
  - apply andb_prop in Hent as [He Hnz]. apply N.ltb_lt in He.
    apply negb_true_iff, N.eqb_neq in Hnz.
    rewrite <- !app_assoc, be_u16_to_be. cbn [ibind].
    rewrite be_u16_to_be. cbn [ibind].
    rewrite (N.mod_small (id + 0x8000)) by lia.
    replace (0x8000 <? id + 0x8000) with true by (symmetry; apply N.ltb_lt; lia).
    rewrite be_u32_to_be. cbn [ibind].
    rewrite land_7fff_flag by exact Hid.
    rewrite !N.mod_small by lia. reflexivity.
  - rewrite <- !app_assoc, be_u16_to_be. cbn [ibind].
    rewrite be_u16_to_be. cbn [ibind].
    rewrite !N.mod_small by lia.
    replace (0x8000 <? id) with false by (symmetry; apply N.ltb_ge; lia).
    cbn [ibind]. rewrite land_7fff_small by exact Hid. reflexivity.
Qed.

(** [parse_field_specifier] reads back the encoding of every specifier
    with a 15-bit id, a 16-bit length and a 32-bit enterprise number,
    provided an id with an enterprise number is not 0 (raw id [0x8000]). *)
Theorem parse_field_specifier_roundtrip (fs : FieldSpecifier) (rest : bytes) :
  fs_wf fs = true ->
  parse_field_specifier (encode_field_specifier fs ++ rest) = IOk rest fs.
Proof. intros; by apply field_specifier_encoded. Qed.

Lemma parse_field_specifier_roundtrip_witness :
  parse_field_specifier
    (encode_field_specifier {| fs_id := 8; fs_length := 4; fs_enterprise_id := Some 29305 |} ++ [x00]) =
    IOk [x00] {| fs_id := 8; fs_length := 4; fs_enterprise_id := Some 29305 |}.
Proof. apply parse_field_specifier_roundtrip. reflexivity. Defined.

(** [FieldSpecifier::read] on a variable-length field ([length = 0xFFFF])
    reads back a value of up to 65535 bytes behind its length prefix, in
    both the one-byte and the three-byte prefix form. *)
Theorem field_read_varlen_roundtrip (field : FieldSpecifier) (data rest : bytes) :
  fs_length field = 65535 -> N.of_nat (length data) < 65536 ->
  FieldSpecifier_read field (encode_varlen data ++ rest) = IOk rest data.
Proof.
  intros Hvar Hdata. unfold FieldSpecifier_read, encode_varlen. rewrite Hvar. cbn [N.ltb N.compare].
  destruct (length data <? 255)%nat eqn:E.
  - apply Nat.ltb_lt in E. rewrite <- app_assoc, be_u8_to_be. cbn [ibind].
    rewrite N.mod_small by lia.
    replace (N.of_nat (length data) <? 255) with true by (symmetry; apply N.ltb_lt; lia).
    apply nom_take_app. lia.
  - apply Nat.ltb_ge in E. rewrite <- !app_assoc. cbn [app be_u8 ibind].
    change (Byte.to_N xff <? 255) with false. lazy beta iota.
    rewrite be_u16_to_be. cbn [ibind]. rewrite N.mod_small by lia.
    apply nom_take_app. lia.
Qed.

Lemma field_read_varlen_roundtrip_witness :
  FieldSpecifier_read {| fs_id := 82; fs_length := 65535; fs_enterprise_id := None |}
    (encode_varlen [x65; x74; x68; x30] ++ [x01]) = IOk [x01] [x65; x74; x68; x30].
Proof. apply field_read_varlen_roundtrip; cbn; lia. Defined.

(** ** Sets and messages on the wire *)

(** [many1] over a run of encoded items, followed by a tail the item parser
    rejects, gives back the items and leaves the tail. *)
Lemma many1_loop_enc {A} (f : bytes -> IResult A) (enc : A -> bytes) (ok : A -> Prop)
    (xs : list A) (tail : bytes) (fuel : nat) :
  (forall x rest, ok x -> f (enc x ++ rest) = IOk rest x) ->
  (forall x, ok x -> enc x <> []) ->
  Forall ok xs -> f tail = IErr ->
  (length (concat (map enc xs)) <= fuel)%nat ->
  many1_loop f fuel (concat (map enc xs) ++ tail) = IOk tail xs.
Proof.
  intros Hf Hne Hxs Htail. revert fuel.
  induction Hxs as [|x xs Hx Hxs IH]; intros fuel Hfuel.
  - destruct fuel; cbn; [reflexivity|]. by rewrite Htail.
  - cbn [map concat] in *. rewrite length_app in Hfuel.
    assert (Hlen : (0 < length (enc x))%nat)
      by (destruct (enc x) eqn:E; [by apply Hne in Hx|]; cbn; lia).
    destruct fuel as [|fuel]; [lia|].
    cbn [many1_loop]. rewrite <- app_assoc, Hf by exact Hx.
    replace (length (concat (map enc xs) ++ tail) =?
             length (enc x ++ concat (map enc xs) ++ tail))%nat with false
      by (symmetry; apply Nat.eqb_neq; rewrite !length_app; lia).
    rewrite IH by lia. reflexivity.
Qed.

Lemma many1_enc {A} (f : bytes -> IResult A) (enc : A -> bytes) (ok : A -> Prop)
    (x : A) (xs : list A) (tail : bytes) :
  (forall x rest, ok x -> f (enc x ++ rest) = IOk rest x) ->
  (forall x, ok x -> enc x <> []) ->
  Forall ok (x :: xs) -> f tail = IErr ->
  many1 f (concat (map enc (x :: xs)) ++ tail) = IOk tail (x :: xs).
Proof.
  intros Hf Hne Hxs Htail. inversion Hxs as [|? ? Hx Hrest]; subst.
  unfold many1. cbn [map concat]. rewrite <- app_assoc, Hf by exact Hx. cbn [ibind].
  rewrite (many1_loop_enc f enc ok) by (try rewrite length_app; auto; lia).
  reflexivity.
Qed.

Lemma count_field_specifiers (fields : list FieldSpecifier) (rest : bytes) :
  forallb fs_wf fields = true ->
  count parse_field_specifier (length fields)
        (concat (map encode_field_specifier fields) ++ rest) = IOk rest fields.
Proof.
  induction fields as [|fs fields IH]; intros Hwf; [reflexivity|].
  cbn [forallb] in Hwf. apply andb_prop in Hwf as [Hfs Hfields].
  cbn [length count map concat]. rewrite <- app_assoc.
  rewrite field_specifier_encoded by exact Hfs. cbn [ibind].
  rewrite IH by exact Hfields. reflexivity.
Qed.

Lemma parse_template_record_roundtrip (r : TemplateRecord) (rest : bytes) :
  tr_wf r = true -> parse_template_record (encode_template_record r ++ rest) = IOk rest r.
Proof.
  destruct r as [id fields]. unfold tr_wf, encode_template_record. cbn [tr_id tr_fields].
  intros Hwf. apply andb_prop in Hwf as [Hwf Hall]. apply andb_prop in Hwf as [Hid Hn].
  apply N.ltb_lt in Hid, Hn.
  unfold parse_template_record. rewrite <- !app_assoc, be_u16_to_be. cbn [ibind].
  rewrite be_u16_to_be. cbn [ibind].
  rewrite !N.mod_small by lia. rewrite Nat2N.id, count_field_specifiers by exact Hall.
  reflexivity.
Qed.

Lemma encode_template_record_ne r : encode_template_record r <> [].
Proof.
  unfold encode_template_record. intros H.
  apply (f_equal length) in H. rewrite !length_app, length_to_be in H. cbn in H. lia.
Qed.

Lemma parse_template_record_short (pad : bytes) :
  (length pad < 4)%nat -> parse_template_record pad = IErr.
Proof.
  intros Hpad. destruct pad as [|a [|b [|c [|d pad]]]]; try reflexivity. cbn in Hpad; lia.
Qed.

Lemma encode_set_parts set_id body rest :
  N.of_nat (length body) < 0xfffc ->
  exists b0 b1, encode_set set_id body ++ rest =
    b0 :: b1 :: to_be 2 (4 + N.of_nat (length body)) ++ body ++ rest /\
    be_value [b0; b1] = set_id mod 0x10000.
Proof.
  intros _. exists (byte_of (set_id / 256)), (byte_of set_id). split.
  - unfold encode_set. reflexivity.
  - change [byte_of (set_id / 256); byte_of set_id] with (to_be 2 set_id).
    by rewrite be_value_to_be.
Qed.

(** The set header's length field, read back: the body is taken whole. *)
Lemma set_body_bind {B} (body rest : bytes) (k : bytes -> bytes -> IResult B) :
  N.of_nat (length body) < 0xfffc ->
  ibind (be_u16 (to_be 2 (4 + N.of_nat (length body)) ++ body ++ rest)) (fun input length =>
    match checked_sub length 4 with
    | None => IPanic
    | Some n => ibind (nom_take n input) k
    end) = k rest body.
Proof.
  intros Hb. rewrite be_u16_to_be. cbn [ibind]. rewrite N.mod_small by lia.
  unfold checked_sub. replace (4 <=? 4 + N.of_nat (length body)) with true
    by (symmetry; apply N.leb_le; lia).
  replace (4 + N.of_nat (length body) - 4) with (N.of_nat (length body)) by lia.
  rewrite nom_take_app by lia. reflexivity.
Qed.

Lemma template_set_encoded (recs : list TemplateRecord) (rest : bytes) :
  recs <> [] -> forallb tr_wf recs = true ->
  N.of_nat (length (concat (map encode_template_record recs))) < 0xfffc ->
  parse_set (encode_set 2 (concat (map encode_template_record recs)) ++ rest) =
    IOk rest (STemplateSet recs).
Proof.
  intros Hne Hwf Hb.
  destruct (encode_set_parts 2 (concat (map encode_template_record recs)) rest Hb)
    as (b0 & b1 & Henc & Hid).
  rewrite Henc. unfold parse_set, peek_be_u16. cbn [be_u16 ibind]. rewrite Hid.
  replace (2 mod 0x10000 =? 2) with true by reflexivity.
  unfold parse_template_set. cbn [be_u16 ibind]. rewrite set_body_bind by exact Hb.
  destruct recs as [|r recs]; [contradiction|].
  unfold do_parse_template_set.
  rewrite <- (app_nil_r (concat (map encode_template_record (r :: recs)))).
  rewrite (many1_enc _ _ (fun r => tr_wf r = true)).
  - reflexivity.
  - intros x rest' Hx. by apply parse_template_record_roundtrip.
  - intros x _. apply encode_template_record_ne.
  - apply List.Forall_forall. intros x Hx. exact (proj1 (forallb_forall _ _) Hwf x Hx).
  - reflexivity.
Qed.

(** [parse_set] reads back a template set holding one or more template
    records (16-bit ids, fewer than 65536 fields, well-formed specifiers). *)
Theorem parse_template_set_roundtrip (recs : list TemplateRecord) (rest : bytes) :
  recs <> [] -> forallb tr_wf recs = true ->
  N.of_nat (length (concat (map encode_template_record recs))) < 0xfffc ->
  parse_set (encode_set 2 (concat (map encode_template_record recs)) ++ rest) =
    IOk rest (STemplateSet recs).
Proof. intros; by apply template_set_encoded. Qed.

Lemma parse_template_set_roundtrip_witness :
  parse_set (encode_set 2 (concat (map encode_template_record one_template)) ++ []) =
    IOk [] (STemplateSet one_template).
Proof. apply parse_template_set_roundtrip; [discriminate | reflexivity | vm_compute; reflexivity]. Defined.

(** A template set whose records are followed by 1 to 3 padding bytes makes
    [parse_template_set] panic (its [assert_eq!(r.len(), 0)]). *)
Theorem parse_template_set_padding_panics (recs : list TemplateRecord) (pad rest : bytes) :
  recs <> [] -> forallb tr_wf recs = true ->
  (0 < length pad < 4)%nat ->
  N.of_nat (length (concat (map encode_template_record recs) ++ pad)) < 0xfffc ->
  parse_set (encode_set 2 (concat (map encode_template_record recs) ++ pad) ++ rest) = IPanic.
Proof.
  intros Hne Hwf Hpad Hb.
  destruct (encode_set_parts 2 (concat (map encode_template_record recs) ++ pad) rest Hb)
    as (b0 & b1 & Henc & Hid).
  rewrite Henc. unfold parse_set, peek_be_u16. cbn [be_u16 ibind]. rewrite Hid.
  replace (2 mod 0x10000 =? 2) with true by reflexivity.
  unfold parse_template_set. cbn [be_u16 ibind]. rewrite set_body_bind by exact Hb.
  destruct recs as [|r recs]; [contradiction|].
  unfold do_parse_template_set.
  rewrite (many1_enc _ _ (fun r => tr_wf r = true)).
  - destruct pad; [cbn in Hpad; lia|reflexivity].
  - intros x rest' Hx. by apply parse_template_record_roundtrip.
  - intros x _. apply encode_template_record_ne.
  - apply List.Forall_forall. intros x Hx. exact (proj1 (forallb_forall _ _) Hwf x Hx).
  - apply parse_template_record_short. lia.
Qed.

Lemma parse_template_set_padding_panics_witness :
  parse_set (encode_set 2 (concat (map encode_template_record one_template) ++ [x00]) ++ []) =
    IPanic.
Proof.
  apply parse_template_set_padding_panics;
    [discriminate | reflexivity | cbn; lia | vm_compute; reflexivity].
Defined.

Lemma options_set_encoded (body rest : bytes) :
  N.of_nat (length body) < 0xfffc ->
  parse_set (encode_set 3 body ++ rest) = IOk rest SOptionsSet.
Proof.
  intros Hb. destruct (encode_set_parts 3 body rest Hb) as (b0 & b1 & Henc & Hid).
  rewrite Henc. unfold parse_set, peek_be_u16. cbn [be_u16 ibind]. rewrite Hid.
  replace (3 mod 0x10000 =? 2) with false by reflexivity.
  replace (3 mod 0x10000 =? 3) with true by reflexivity.
  unfold parse_options_set. cbn [be_u16 ibind]. rewrite set_body_bind by exact Hb.
  reflexivity.
Qed.

(** [parse_set] skips an options set whole: its body is consumed and
    dropped. *)
Theorem parse_options_set_skips (body rest : bytes) :
  N.of_nat (length body) < 0xfffc ->
  parse_set (encode_set 3 body ++ rest) = IOk rest SOptionsSet.
Proof. intros; by apply options_set_encoded. Qed.

Lemma parse_options_set_skips_witness :
  parse_set (encode_set 3 [x01; x02] ++ [x09]) = IOk [x09] SOptionsSet.
Proof. apply parse_options_set_skips. cbn; lia. Defined.

Lemma parse_data_set_encoded (d : DataSet) (rest : bytes) :
  ds_id d <> 2 -> ds_id d <> 3 -> ds_id d < 0x10000 ->
  N.of_nat (length (ds_data d)) < 0xfffc ->
  parse_set (encode_set (ds_id d) (ds_data d) ++ rest) = IOk rest (SDataSet d).
Proof.
  destruct d as [id data]. cbn [ds_id ds_data]. intros H2 H3 Hid Hb.
  destruct (encode_set_parts id data rest Hb) as (b0 & b1 & Henc & Hv).
  rewrite Henc. unfold parse_set, peek_be_u16. cbn [be_u16 ibind].
  rewrite Hv, N.mod_small by exact Hid.
  apply N.eqb_neq in H2, H3. rewrite H2, H3.
  unfold parse_data_set. cbn [be_u16 ibind]. rewrite set_body_bind by exact Hb.
  cbn [ibind]. rewrite Hv, N.mod_small by exact Hid. reflexivity.
Qed.

Lemma parse_set_encoded (set : Set_) (rest : bytes) :
  set_wf set = true -> parse_set (encode_set_ set ++ rest) = IOk rest set.
Proof.
  destruct set as [d| |recs]; cbn [set_wf encode_set_].
  - intros Hwf. apply andb_prop in Hwf as [Hwf Hb]. apply andb_prop in Hwf as [Hwf Hid].
    apply andb_prop in Hwf as [H2 H3].
    apply negb_true_iff, N.eqb_neq in H2, H3. apply N.ltb_lt in Hid, Hb.
    by apply parse_data_set_encoded.
  - intros _. apply options_set_encoded. cbn; lia.
  - intros Hwf. apply andb_prop in Hwf as [Hwf Hb]. apply andb_prop in Hwf as [Hne Hall].
    apply N.ltb_lt in Hb.
    apply template_set_encoded; [by destruct recs | exact Hall | exact Hb].
Qed.

Lemma nom_take_all n data :
  N.to_nat n = length data -> nom_take n data = IOk [] data.
Proof. intros Hn. pose proof (nom_take_app n data [] Hn) as H. by rewrite app_nil_r in H. Qed.

Lemma encode_set_ne (set : Set_) : encode_set_ set <> [].
Proof. destruct set; cbn [encode_set_]; unfold encode_set; cbn; discriminate. Qed.

Lemma do_parse_message (v e s o : N) (body : bytes) (sets : list Set_) :
  v < 0x10000 -> e < 0x100000000 -> s < 0x100000000 -> o < 0x100000000 ->
  16 + N.of_nat (length body) < 0x10000 ->
  many1 parse_set body = IOk [] sets ->
  do_parse (encode_message v e s o body) =
    IOk [] {| version := v; export_time := e; sequence_number := s;
              observation_domain_id := o; sets := sets |}.
Proof.
  intros Hv He Hs Ho Hlen Hsets. unfold do_parse, encode_message.
  rewrite be_u16_to_be. cbn [ibind]. rewrite be_u16_to_be. cbn [ibind].
  rewrite (N.mod_small (16 + _)) by exact Hlen. unfold checked_sub.
  replace (4 <=? 16 + N.of_nat (length body)) with true by (symmetry; apply N.leb_le; lia).
  rewrite nom_take_all by (rewrite !length_app, !length_to_be; lia). cbn [ibind].
  rewrite be_u32_to_be. cbn [ibind]. rewrite be_u32_to_be. cbn [ibind].
  rewrite be_u32_to_be. cbn [ibind]. rewrite Hsets. cbn [ibind].
  rewrite !N.mod_small by assumption. reflexivity.
Qed.

(** [parse] reads back a whole message: the header fields (16-bit version,
    32-bit export time, sequence number and observation domain) and every
    set of a non-empty list of data, template and (empty) options sets, in
    order. *)
Theorem parse_message_roundtrip (v e s o : N) (sets : list Set_) :
  v < 0x10000 -> e < 0x100000000 -> s < 0x100000000 -> o < 0x100000000 ->
  sets <> [] -> forallb set_wf sets = true ->
  16 + N.of_nat (length (concat (map encode_set_ sets))) < 0x10000 ->
  parse (encode_message v e s o (concat (map encode_set_ sets))) =
    PacketOk {| version := v; export_time := e; sequence_number := s;
                observation_domain_id := o; sets := sets |}.
Proof.
  intros Hv He Hs Ho Hne Hwf Hlen. unfold parse.
  destruct sets as [|x xs]; [contradiction|].
  rewrite (do_parse_message v e s o _ (x :: xs)); try assumption; [reflexivity|].
  rewrite <- (app_nil_r (concat (map encode_set_ (x :: xs)))).
  apply (many1_enc _ _ (fun set => set_wf set = true)).
  - intros set rest Hset. by apply parse_set_encoded.
  - intros set _. apply encode_set_ne.
  - apply List.Forall_forall. intros y Hy. exact (proj1 (forallb_forall _ _) Hwf y Hy).
  - reflexivity.
Qed.

Lemma parse_message_roundtrip_witness :
  parse (encode_message 10 1700000000 7 1 (concat (map encode_set_ two_sets))) =
    PacketOk {| version := 10; export_time := 1700000000; sequence_number := 7;
                observation_domain_id := 1; sets := two_sets |}.
Proof.
  apply parse_message_roundtrip;
    [lia | lia | lia | lia | discriminate | vm_compute; reflexivity | vm_compute; reflexivity].
Defined.

(** A message with a header and no set is refused with an error: [many1]
    needs at least one set. *)
Theorem parse_header_only_err (v e s o : N) :
  parse (encode_message v e s o []) = ParseErr.
Proof.
  unfold parse, do_parse, encode_message.
  rewrite be_u16_to_be. cbn [ibind]. rewrite be_u16_to_be. cbn [ibind].
  replace ((16 + N.of_nat (length (@nil byte))) mod 0x10000) with 16 by reflexivity.
  unfold checked_sub. replace (4 <=? 16) with true by reflexivity.
  rewrite nom_take_all by (rewrite !length_app, !length_to_be; reflexivity). cbn [ibind].
  rewrite be_u32_to_be. cbn [ibind]. rewrite be_u32_to_be. cbn [ibind].
  rewrite app_nil_r, <- (app_nil_r (to_be 4 o)), be_u32_to_be. cbn [ibind].
  reflexivity.
Qed.

(** A message whose length field (at least 4) announces more bytes than
    follow is refused with an error, before any set is read. *)
Theorem parse_truncated_err (v len : N) (rest : bytes) :
  4 <= len < 0x10000 -> N.of_nat (length rest) < len - 4 ->
  parse (to_be 2 v ++ to_be 2 len ++ rest) = ParseErr.
Proof.
  intros Hlen Hrest. unfold parse, do_parse.
  rewrite be_u16_to_be. cbn [ibind]. rewrite be_u16_to_be. cbn [ibind].
  rewrite (N.mod_small len) by lia. unfold checked_sub.
  replace (4 <=? len) with true by (symmetry; apply N.leb_le; lia).
  unfold nom_take.
  replace (N.to_nat (len - 4) <=? length rest)%nat with false
    by (symmetry; apply Nat.leb_gt; lia).
  reflexivity.
Qed.

Lemma parse_truncated_err_witness :
  parse (to_be 2 10 ++ to_be 2 20 ++ [x00; x01]) = ParseErr.
Proof. apply parse_truncated_err; cbn; lia. Defined.

(** A length field below 4 makes [do_parse]'s [length - 4] underflow, a
    panic in a debug build. *)
Theorem parse_length_below_4_panics (v len : N) (rest : bytes) :
  len < 4 -> parse (to_be 2 v ++ to_be 2 len ++ rest) = ParsePanic.
Proof.
  intros Hlen. unfold parse, do_parse.
  rewrite be_u16_to_be. cbn [ibind]. rewrite be_u16_to_be. cbn [ibind].
  rewrite (N.mod_small len) by lia. unfold checked_sub.
  replace (4 <=? len) with false by (symmetry; apply N.leb_gt; lia).
  reflexivity.
Qed.

Lemma parse_length_below_4_panics_witness :
  parse (to_be 2 10 ++ to_be 2 3 ++ [x00]) = ParsePanic.
Proof. apply parse_length_below_4_panics. lia. Defined.

(** Bytes after the end a message's length field announces make [parse]
    panic (its [assert_eq!(remaining.len(), 0)]), even when the message
    alone parses. *)
Theorem parse_trailing_bytes_panic (input extra : bytes) (p : Packet) :
  parse input = PacketOk p -> extra <> [] -> parse (input ++ extra) = ParsePanic.
Proof.
  intros H Hextra. unfold parse, do_parse in *.
  destruct input as [|b0 [|b1 [|l0 [|l1 rest]]]]; try discriminate H.
  cbn [app be_u16 ibind] in *.
  destruct (checked_sub _ 4) as [n|]; [|discriminate H].
  unfold nom_take in *.
  destruct (N.to_nat n <=? length rest)%nat eqn:E; [|discriminate H].
  apply Nat.leb_le in E.
  replace (N.to_nat n <=? length (rest ++ extra))%nat with true
    by (symmetry; apply Nat.leb_le; rewrite length_app; lia).
  rewrite take_app_le, drop_app_le by exact E. cbn [ibind] in *.
  destruct (be_u32 (take (N.to_nat n) rest)) as [i1 x1| |]; try discriminate H.
  cbn [ibind] in *.
  destruct (be_u32 i1) as [i2 x2| |]; try discriminate H. cbn [ibind] in *.
  destruct (be_u32 i2) as [i3 x3| |]; try discriminate H. cbn [ibind] in *.
  destruct (many1 parse_set i3) as [i4 x4| |]; try discriminate H. cbn [ibind] in *.
  destruct i4; [|discriminate H].
  destruct (drop (N.to_nat n) rest); [|discriminate H].
  destruct extra; [contradiction | reflexivity].
Qed.

Lemma parse_trailing_bytes_panic_witness :
  parse (encode_message 10 1700000000 7 1 (concat (map encode_set_ two_sets)) ++ [x00]) =
    ParsePanic.
Proof.
  apply (parse_trailing_bytes_panic _ _
    {| version := 10; export_time := 1700000000; sequence_number := 7;
       observation_domain_id := 1; sets := two_sets |});
    [vm_compute; reflexivity | discriminate].
Defined.

(** ** [FieldParser] and [DebugParser] *)

Lemma read_fixed_ok (f : FieldSpecifier) (input : bytes) :
  fixed_length f -> (N.to_nat (fs_length f) <= length input)%nat ->
  FieldSpecifier_read f input =
    IOk (drop (N.to_nat (fs_length f)) input) (take (N.to_nat (fs_length f)) input).
Proof.
  unfold fixed_length, FieldSpecifier_read, nom_take. intros Hf Hle.
  replace (fs_length f <? 65535) with true by (symmetry; apply N.ltb_lt; lia).
  by replace (N.to_nat (fs_length f) <=? length input)%nat with true
    by (symmetry; apply Nat.leb_le; lia).
Qed.

Lemma read_fixed_short (f : FieldSpecifier) (input : bytes) :
  fixed_length f -> (length input < N.to_nat (fs_length f))%nat ->
  FieldSpecifier_read f input = IErr.
Proof.
  unfold fixed_length, FieldSpecifier_read, nom_take. intros Hf Hlt.
  replace (fs_length f <? 65535) with true by (symmetry; apply N.ltb_lt; lia).
  by replace (N.to_nat (fs_length f) <=? length input)%nat with false
    by (symmetry; apply Nat.leb_gt; lia).
Qed.

Lemma field_parser_loop_ids (parsers : gmap N NameFn) (fields : list FieldSpecifier)
    (input : bytes) (records : list Record_) :
  field_parser_loop parsers fields input = Ret records ->
  map rec_id records = map fs_id fields.
Proof.
  revert input records. induction fields as [|f fields IH]; intros input records H.
  - cbn in H. by inversion H.
  - cbn [field_parser_loop] in H.
    destruct (FieldSpecifier_read f input) as [input' data| |]; try discriminate H.
    cbn [mbind outcome_bind] in H.
    destruct (match parsers !! fs_id f with Some nf => nf_parser nf data | None => Ret (Unknown data) end);
      [|discriminate H].
    cbn [mbind outcome_bind] in H.
    destruct (field_parser_loop parsers fields input') as [rs|] eqn:E; [|discriminate H].
    cbn [mret outcome_ret] in H. inversion H; subst. cbn. f_equal. by apply (IH input').
Qed.

(** [FieldParser::parse] answers with the data set's id and one record per
    field, in the fields' order, carrying the field's id. *)
Theorem field_parser_record_ids (p : FieldParser) (fields : list FieldSpecifier)
    (set : DataSet) (rs : RecordSet) :
  field_parser_parse p fields set = Ret (Some rs) ->
  rs_id rs = ds_id set /\ map rec_id (rs_records rs) = map fs_id fields.
Proof.
  unfold field_parser_parse. intros H.
  destruct (field_parser_loop (fp_parsers p) fields (ds_data set)) as [records|] eqn:E;
    [|discriminate H].
  cbn in H. inversion H; subst. split; [reflexivity|].
  exact (field_parser_loop_ids _ _ _ _ E).
Qed.

Lemma field_parser_loop_short (parsers : gmap N NameFn) (fields : list FieldSpecifier)
    (input : bytes) :
  Forall fixed_length fields -> (length input < total_length fields)%nat ->
  field_parser_loop parsers fields input = Panic.
Proof.
  revert input. induction fields as [|f fields IH]; intros input Hfix Hlen.
  - cbn in Hlen. lia.
  - inversion Hfix as [|? ? Hf Hfs]; subst. cbn [total_length sum_list_with] in Hlen.
    unfold total_length in IH.
    cbn [field_parser_loop].
    destruct (decide (length input < N.to_nat (fs_length f))%nat) as [Hs|Hs].
    + by rewrite read_fixed_short.
    + rewrite read_fixed_ok by (auto; lia). cbn [mbind outcome_bind].
      destruct (match parsers !! fs_id f with Some nf => nf_parser nf _ | None => _ end);
        [|reflexivity].
      cbn [mbind outcome_bind]. rewrite IH; [reflexivity|exact Hfs|].
      rewrite length_drop. unfold total_length in Hlen. lia.
Qed.

(** [FieldParser::parse] panics (its [unwrap]) when fixed-length fields
    need more bytes than the data set holds, whatever extractors are
    registered. *)
Theorem field_parser_short_panics (p : FieldParser) (fields : list FieldSpecifier)
    (set : DataSet) :
  Forall fixed_length fields -> (length (ds_data set) < total_length fields)%nat ->
  field_parser_parse p fields set = Panic.
Proof.
  intros Hfix Hlen. unfold field_parser_parse.
  by rewrite field_parser_loop_short.
Qed.

Lemma field_parser_loop_raw (parsers : gmap N NameFn) (fields : list FieldSpecifier)
    (input : bytes) :
  Forall (fun f => fixed_length f /\ parsers !! fs_id f = None) fields ->
  (total_length fields <= length input)%nat ->
  exists ds,
    Forall2 (fun f d => length d = N.to_nat (fs_length f)) fields ds /\
    concat ds = take (total_length fields) input /\
    field_parser_loop parsers fields input =
      Ret (zip_with (fun f d => {| rec_id := fs_id f; rec_value := Unknown d |}) fields ds).
Proof.
  revert input. induction fields as [|f fields IH]; intros input Hall Hlen.
  - exists []. split; [constructor|]. split; reflexivity.
  - inversion Hall as [|? ? [Hf Hnone] Hfs]; subst.
    cbn [total_length sum_list_with] in Hlen. unfold total_length in IH.
    destruct (IH (drop (N.to_nat (fs_length f)) input)) as (ds & Hds & Hcat & Hloop);
      [exact Hfs | rewrite length_drop; unfold total_length in Hlen; lia |].
    exists (take (N.to_nat (fs_length f)) input :: ds). split; [|split].
    + constructor; [|exact Hds]. rewrite length_take. unfold total_length in Hlen. lia.
    + cbn [concat total_length sum_list_with]. rewrite Hcat. apply take_take_drop.
    + cbn [field_parser_loop]. rewrite read_fixed_ok by (auto; unfold total_length in Hlen; lia).
      rewrite Hnone. cbn [mbind outcome_bind]. rewrite Hloop. reflexivity.
Qed.

(** A field without a registered extractor gets its raw bytes as
    [Value::Unknown]: for fixed-length fields that fit the data set, each
    record holds exactly [length] bytes, and the records together hold the
    data set's leading bytes in order. *)
Theorem field_parser_unregistered_raw (parsers : gmap N NameFn)
    (fields : list FieldSpecifier) (set : DataSet) :
  Forall (fun f => fixed_length f /\ parsers !! fs_id f = None) fields ->
  (total_length fields <= length (ds_data set))%nat ->
  exists ds,
    Forall2 (fun f d => length d = N.to_nat (fs_length f)) fields ds /\
    concat ds = take (total_length fields) (ds_data set) /\
    field_parser_parse (build parsers) fields set =
      Ret (Some {| rs_id := ds_id set;
                   rs_records := zip_with (fun f d => {| rec_id := fs_id f;
                                                         rec_value := Unknown d |})
                                          fields ds |}).
Proof.
  intros Hall Hlen.
  destruct (field_parser_loop_raw parsers fields (ds_data set) Hall Hlen)
    as (ds & Hds & Hcat & Hloop).
  exists ds. split; [exact Hds|]. split; [exact Hcat|].
  unfold field_parser_parse, build. cbn [fp_parsers]. rewrite Hloop. reflexivity.
Qed.

Lemma debug_loop_fits (parsers : gmap N NameFn) (fields : list FieldSpecifier) (input : bytes) :
  Forall fixed_length fields -> (total_length fields <= length input)%nat ->
  debug_loop false parsers fields input = Ret tt.
Proof.
  revert input. induction fields as [|f fields IH]; intros input Hfix Hlen; [reflexivity|].
  inversion Hfix as [|? ? Hf Hfs]; subst.
  cbn [total_length sum_list_with] in Hlen. unfold total_length in IH, Hlen.
  cbn [debug_loop]. rewrite read_fixed_ok by (auto; lia). cbn [mbind outcome_bind].
  apply IH; [exact Hfs|]. rewrite length_drop. lia.
Qed.

Lemma debug_loop_short (log_enabled : bool) (parsers : gmap N NameFn)
    (fields : list FieldSpecifier) (input : bytes) :
  Forall fixed_length fields -> (length input < total_length fields)%nat ->
  debug_loop log_enabled parsers fields input = Panic.
Proof.
  revert input. induction fields as [|f fields IH]; intros input Hfix Hlen.
  - cbn in Hlen. lia.
  - inversion Hfix as [|? ? Hf Hfs]; subst.
    cbn [total_length sum_list_with] in Hlen. unfold total_length in IH, Hlen.
    cbn [debug_loop].
    destruct (decide (length input < N.to_nat (fs_length f))%nat) as [Hs|Hs].
    + by rewrite read_fixed_short.
    + rewrite read_fixed_ok by (auto; lia). cbn [mbind outcome_bind].
      destruct (if log_enabled then _ else _) as [[]|]; [|reflexivity].
      cbn [mbind outcome_bind]. apply IH; [exact Hfs|]. rewrite length_drop. lia.
Qed.

(** With its logging disabled, [DebugParser::parse] gives what its delegate
    gives, for fixed-length fields that fit the data set. *)
Theorem debug_parse_delegates {T O} `{Parser T O} (d : DebugParser T)
    (fields : list FieldSpecifier) (set : DataSet) :
  Forall fixed_length fields -> (total_length fields <= length (ds_data set))%nat ->
  debug_parse false d fields set = parser_parse (delegate d) fields set.
Proof.
  intros Hfix Hlen. unfold debug_parse. rewrite debug_loop_fits by assumption.
  reflexivity.
Qed.

(** [DebugParser::parse] panics when fixed-length fields need more bytes
    than the data set holds, before its delegate runs: whatever the
    delegate would answer, and with logging on or off. *)
Theorem debug_parse_short_panics {T O} `{Parser T O} (log_enabled : bool)
    (d : DebugParser T) (fields : list FieldSpecifier) (set : DataSet) :
  Forall fixed_length fields -> (length (ds_data set) < total_length fields)%nat ->
  debug_parse log_enabled d fields set = Panic.
Proof.
  intros Hfix Hlen. unfold debug_parse. by rewrite debug_loop_short.
Qed.

Lemma field_parser_record_ids_witness :
  rs_id {| rs_id := 256;
           rs_records := [{| rec_id := 8; rec_value := Ipv4Addr 167772161 |};
                          {| rec_id := 7; rec_value := Unknown [x00; x50] |}] |} = ds_id addr_set /\
  map rec_id [{| rec_id := 8; rec_value := Ipv4Addr 167772161 |};
              {| rec_id := 7; rec_value := Unknown [x00; x50] |}] = map fs_id addr_fields.
Proof.
  apply (field_parser_record_ids ipv4_parser addr_fields addr_set
    {| rs_id := 256;
       rs_records := [{| rec_id := 8; rec_value := Ipv4Addr 167772161 |};
                      {| rec_id := 7; rec_value := Unknown [x00; x50] |}] |}).
  vm_compute. reflexivity.
Defined.

Lemma field_parser_short_panics_witness :
  field_parser_parse ipv4_parser addr_fields addr_set_short = Panic.
Proof.
  apply field_parser_short_panics;
    [repeat constructor; unfold fixed_length; cbn; lia | cbn; lia].
Defined.

Lemma field_parser_unregistered_raw_witness :
  exists ds,
    Forall2 (fun f d => length d = N.to_nat (fs_length f)) addr_fields ds /\
    concat ds = take (total_length addr_fields) (ds_data addr_set) /\
    field_parser_parse (build FieldParserBuilder_new) addr_fields addr_set =
      Ret (Some {| rs_id := ds_id addr_set;
                   rs_records := zip_with (fun f d => {| rec_id := fs_id f;
                                                         rec_value := Unknown d |})
                                          addr_fields ds |}).
Proof.
  apply field_parser_unregistered_raw;
    [repeat constructor; unfold fixed_length; cbn; lia | cbn; lia].
Defined.

Lemma debug_parse_delegates_witness :
  debug_parse false {| dp_parsers := ∅; delegate := ipv4_parser |} addr_fields addr_set =
    field_parser_parse ipv4_parser addr_fields addr_set.
Proof.
  apply (debug_parse_delegates {| dp_parsers := ∅; delegate := ipv4_parser |});
    [repeat constructor; unfold fixed_length; cbn; lia | cbn; lia].
Defined.

Lemma debug_parse_short_panics_witness :
  debug_parse true debug_ipfix addr_fields addr_set_short = Panic.
Proof.
  apply debug_parse_short_panics;
    [repeat constructor; unfold fixed_length; cbn; lia | cbn; lia].
Defined.

(** ** [IpfixParser]: fields and flows *)

Lemma num_field_u64 (data : bytes) :
  num_field as_u64 data =
    match length data with
    | 1%nat | 2%nat | 4%nat | 8%nat => Ret (be_value data)
    | _ => Panic
    end.
Proof.
  destruct data as [|b0 [|b1 [|b2 [|b3 [|b4 [|b5 [|b6 [|b7 [|b8 rest]]]]]]]]];
    reflexivity.
Qed.

Lemma num_field_u16 (data : bytes) :
  num_field as_u16 data =
    match length data with
    | 1%nat | 2%nat => Ret (be_value data)
    | _ => Panic
    end.
Proof.
  destruct data as [|b0 [|b1 [|b2 [|b3 [|b4 [|b5 [|b6 [|b7 [|b8 rest]]]]]]]]];
    reflexivity.
Qed.

Lemma num_field_u8 (data : bytes) :
  num_field as_u8 data =
    match length data with
    | 1%nat => Ret (be_value data)
    | _ => Panic
    end.
Proof.
  destruct data as [|b0 [|b1 [|b2 [|b3 [|b4 [|b5 [|b6 [|b7 [|b8 rest]]]]]]]]];
    reflexivity.
Qed.

(** The widths [IpfixParser::parse] accepts for a numeric field: a counter
    or uptime ([as_u64]) of 1, 2, 4 or 8 bytes, a port, VLAN id or
    ethernet type ([as_u16]) of 1 or 2 bytes, a prefix length ([as_u8]) of
    1 byte; the value is the big-endian number of the bytes, and every
    other width panics. *)
Theorem ipfix_number_widths (data : bytes) :
  num_field as_u64 data =
    match length data with
    | 1%nat | 2%nat | 4%nat | 8%nat => Ret (be_value data)
    | _ => Panic
    end /\
  num_field as_u16 data =
    match length data with
    | 1%nat | 2%nat => Ret (be_value data)
    | _ => Panic
    end /\
  num_field as_u8 data =
    match length data with
    | 1%nat => Ret (be_value data)
    | _ => Panic
    end.
Proof. split; [|split]; [apply num_field_u64 | apply num_field_u16 | apply num_field_u8]. Qed.

(** A MAC address field is accepted only with 6 bytes: an 8-byte field
    ([MacAddr8]) fails [as_mac6().unwrap()], other widths fail
    [parse_mac]. *)
Theorem ipfix_mac_field (data : bytes) :
  mac_field data = if (length data =? 6)%nat then Ret data else Panic.
Proof.
  destruct data as [|b0 [|b1 [|b2 [|b3 [|b4 [|b5 [|b6 [|b7 [|b8 rest]]]]]]]]];
    reflexivity.
Qed.

Lemma ipfix_field_other (id : N) (data : bytes) (st : Locals) :
  ~ In id ipfix_ids -> ipfix_field id data st = Ret st.
Proof.
  intros Hid. unfold ipfix_field.
  repeat match goal with
  | |- context [if id =? ?c then _ else _] =>
      let E := fresh "E" in
      destruct (id =? c) eqn:E;
      [apply N.eqb_eq in E; subst id; exfalso; apply Hid; cbn; tauto|]
  end.
  reflexivity.
Qed.

Lemma ipfix_loop_other (fields : list FieldSpecifier) (input : bytes) (st : Locals) :
  Forall (fun f => ~ In (fs_id f) ipfix_ids) fields -> ipfix_loop fields input st = Ret st.
Proof.
  revert input. induction fields as [|f fields IH]; intros input Hall; [reflexivity|].
  inversion Hall as [|? ? Hf Hfs]; subst. cbn [ipfix_loop].
  destruct (length input <? N.to_nat (fs_length f))%nat; [reflexivity|].
  rewrite ipfix_field_other by exact Hf. cbn [mbind outcome_bind]. by apply IH.
Qed.

(** Fields whose ids [IpfixParser::parse] does not match are skipped: a
    data set with only such fields gives the default flow (zero counters,
    broadcast MACs, [127.0.0.1] addresses, zero age), whatever its bytes. *)
Theorem ipfix_parse_unknown_fields (fields : list FieldSpecifier) (set : DataSet) :
  Forall (fun f => ~ In (fs_id f) ipfix_ids) fields ->
  ipfix_parse fields set = Ret (Some default_flow).
Proof.
  intros Hall. unfold ipfix_parse. rewrite ipfix_loop_other by exact Hall.
  reflexivity.
Qed.

Lemma ipfix_parse_unknown_fields_witness :
  ipfix_parse [{| fs_id := 4; fs_length := 1; fs_enterprise_id := None |};
               {| fs_id := 300; fs_length := 3; fs_enterprise_id := None |}]
              {| ds_id := 256; ds_data := [x06; x01; x02; x03] |} =
    Ret (Some default_flow).
Proof.
  apply ipfix_parse_unknown_fields.
  repeat constructor; cbn; unfold IPFIX_BYTES_IN; intros H; repeat destruct H as [H|H];
    discriminate H || exact H.
Defined.

Lemma ipfix_field_end (data : bytes) (st : Locals) :
  ipfix_field IPFIX_FLOW_END_SYSUPTIME data st =
    n ← num_field as_u64 data; Ret (set_end_ n st).
Proof. reflexivity. Qed.

Lemma ipfix_field_start (data : bytes) (st : Locals) :
  ipfix_field IPFIX_FLOW_START_SYSUPTIME data st =
    n ← num_field as_u64 data; Ret (set_start n st).
Proof. reflexivity. Qed.

Lemma ipfix_field_bytes (id : N) (data : bytes) (st : Locals) :
  id = IPFIX_BYTES_IN \/ id = IPFIX_BYTES_OUT ->
  ipfix_field id data st = n ← num_field as_u64 data; Ret (set_bytes n st).
Proof. intros [-> | ->]; reflexivity. Qed.

Lemma num_field_u64_ok (data : bytes) :
  In (length data) [1; 2; 4; 8]%nat -> num_field as_u64 data = Ret (be_value data).
Proof.
  rewrite num_field_u64. intros H. repeat destruct H as [H|H]; try rewrite <- H; done.
Qed.

(** With the end and start uptimes as 4-byte fields, end first, and the
    start not after the end, [IpfixParser::parse] gives a flow whose age is
    their difference in milliseconds. *)
Theorem ipfix_parse_flow_age (e s id : N) (rest : bytes) :
  s <= e -> e < 0x100000000 ->
  exists fl,
    ipfix_parse uptime_fields {| ds_id := id; ds_data := to_be 4 e ++ to_be 4 s ++ rest |} =
      Ret (Some fl) /\ flow_age fl = e - s.
Proof.
  intros Hse He. unfold ipfix_parse, uptime_fields. cbn [ipfix_loop fs_length fs_id ds_data].
  change (N.to_nat 4) with 4%nat.
  rewrite length_app, length_to_be.
  replace (4 + length (to_be 4 s ++ rest) <? 4)%nat with false
    by (symmetry; apply Nat.ltb_ge; lia).
  rewrite take_app_length' by (by rewrite length_to_be).
  rewrite ipfix_field_end, num_field_u64_ok by (rewrite length_to_be; cbn; tauto).
  cbn [mbind outcome_bind].
  rewrite drop_app_length' by (by rewrite length_to_be).
  rewrite length_app, length_to_be.
  replace (4 + length rest <? 4)%nat with false by (symmetry; apply Nat.ltb_ge; lia).
  rewrite take_app_length' by (by rewrite length_to_be).
  rewrite ipfix_field_start, num_field_u64_ok by (rewrite length_to_be; cbn; tauto).
  cbn [mbind outcome_bind ipfix_loop].
  rewrite !be_value_to_be. change (256 ^ N.of_nat 4) with 0x100000000.
  rewrite !N.mod_small by lia.
  unfold build_flow, duration_sub. cbn [l_end_ l_start set_start set_end_].
  replace (e <? s) with false by (symmetry; apply N.ltb_ge; lia).
  cbn [mbind outcome_bind]. eexists. split; reflexivity.
Qed.

Lemma ipfix_parse_flow_age_witness :
  exists fl,
    ipfix_parse uptime_fields {| ds_id := 256; ds_data := to_be 4 5000 ++ to_be 4 1500 ++ [] |} =
      Ret (Some fl) /\ flow_age fl = 5000 - 1500.
Proof. apply ipfix_parse_flow_age; lia. Defined.

(** Bytes-in (id 1) and bytes-out (id 23) both set the flow's byte count:
    with two such fields of 1, 2, 4 or 8 bytes in a data set, the count is
    the value of the later field. *)
Theorem ipfix_parse_bytes_last_wins (fa fb : FieldSpecifier) (set : DataSet) :
  (fs_id fa = IPFIX_BYTES_IN \/ fs_id fa = IPFIX_BYTES_OUT) ->
  (fs_id fb = IPFIX_BYTES_IN \/ fs_id fb = IPFIX_BYTES_OUT) ->
  In (N.to_nat (fs_length fa)) [1; 2; 4; 8]%nat ->
  In (N.to_nat (fs_length fb)) [1; 2; 4; 8]%nat ->
  (N.to_nat (fs_length fa) + N.to_nat (fs_length fb) <= length (ds_data set))%nat ->
  exists fl,
    ipfix_parse [fa; fb] set = Ret (Some fl) /\
    fl_bytes fl = be_value (take (N.to_nat (fs_length fb))
                                 (drop (N.to_nat (fs_length fa)) (ds_data set))).
Proof.
  intros Ha Hb Hla Hlb Hlen. unfold ipfix_parse. cbn [ipfix_loop].
  set (la := N.to_nat (fs_length fa)) in *. set (lb := N.to_nat (fs_length fb)) in *.
  replace (length (ds_data set) <? la)%nat with false by (symmetry; apply Nat.ltb_ge; lia).
  rewrite ipfix_field_bytes by exact Ha.
  rewrite num_field_u64_ok
    by (rewrite length_take; replace (la `min` length (ds_data set))%nat with la by lia;
        exact Hla).
  cbn [mbind outcome_bind].
  replace (length (drop la (ds_data set)) <? lb)%nat with false
    by (symmetry; apply Nat.ltb_ge; rewrite length_drop; lia).
  rewrite ipfix_field_bytes by exact Hb.
  rewrite num_field_u64_ok
    by (rewrite length_take, length_drop;
        replace (lb `min` (length (ds_data set) - la))%nat with lb by lia; exact Hlb).
  cbn [mbind outcome_bind ipfix_loop].
  unfold build_flow, duration_sub. cbn.
  eexists. split; reflexivity.
Qed.

Lemma ipfix_parse_bytes_last_wins_witness :
  exists fl,
    ipfix_parse [{| fs_id := 1; fs_length := 4; fs_enterprise_id := None |};
                 {| fs_id := 23; fs_length := 2; fs_enterprise_id := None |}]
                {| ds_id := 256; ds_data := [x00; x00; x01; x00; x00; x07] |} =
      Ret (Some fl) /\
    fl_bytes fl = be_value (take 2 (drop 4 [x00; x00; x01; x00; x00; x07])).
Proof. apply ipfix_parse_bytes_last_wins; cbn; auto. Defined.

(** ** [Session::parse]: sequencing and the template cache *)

Section SessionCache.
Context {P Output : Type} `{Parser P Output}.

Lemma add_records_app (s : Session P) (r1 r2 : list TemplateRecord) :
  add_records (add_records s r1) r2 = add_records s (r1 ++ r2).
Proof. unfold add_records. cbn [templates parser]. by rewrite fold_left_app. Qed.

(** Parsing the sets of one packet after the other is parsing them as one
    packet: the second list sees the cache the first left, and the outputs
    are concatenated in order. *)
Theorem session_parse_sets_app (s : Session P) (xs ys : list Set_) :
  session_parse_sets s (xs ++ ys) =
    '(s1, o1) ← session_parse_sets s xs;
    '(s2, o2) ← session_parse_sets s1 ys;
    Ret (s2, o1 ++ o2).
Proof.
  revert s. induction xs as [|set xs IH]; intros s.
  - cbn [app session_parse_sets mbind outcome_bind].
    destruct (session_parse_sets s ys) as [[s2 o2]|]; reflexivity.
  - destruct set as [d| |records]; cbn [app session_parse_sets].
    + destruct (session_parse_data_set s d) as [outs|]; [|reflexivity].
      cbn [mbind outcome_bind]. rewrite IH.
      destruct (session_parse_sets s xs) as [[s1 o1]|]; cbn [mbind outcome_bind]; [|reflexivity].
      destruct (session_parse_sets s1 ys) as [[s2 o2]|]; cbn [mbind outcome_bind]; [|reflexivity].
      by rewrite app_assoc.
    + apply IH.
    + apply IH.
Qed.

(** After [Session::parse] over a packet's sets, the template cache is the
    one before with every template record of the packet inserted in order
    (a later record with the same id winning); data sets and the outputs
    do not touch it, and the projector is unchanged. *)
Theorem session_cache_after_parse (s s' : Session P) (sets : list Set_) (outs : list Output) :
  session_parse_sets s sets = Ret (s', outs) ->
  s' = add_records s (template_records sets).
Proof.
  revert s outs. induction sets as [|set sets IH]; intros s outs Hrun.
  - cbn in Hrun. inversion Hrun; subst. destruct s'. reflexivity.
  - destruct set as [d| |records]; cbn [session_parse_sets] in Hrun.
    + destruct (session_parse_data_set s d) as [o|]; [|discriminate Hrun].
      cbn [mbind outcome_bind] in Hrun.
      destruct (session_parse_sets s sets) as [[s1 o1]|] eqn:E; [|discriminate Hrun].
      cbn in Hrun. inversion Hrun; subst. exact (IH s o1 E).
    + exact (IH s outs Hrun).
    + rewrite (IH _ outs Hrun), add_records_app. reflexivity.
Qed.

End SessionCache.

Lemma session_cache_after_parse_witness :
  add_records empty_session one_template = add_records empty_session (template_records two_sets).
Proof.
  apply (session_cache_after_parse empty_session _ two_sets []).
  vm_compute. reflexivity.
Defined.

Section SessionStride.
Context {P Output : Type} `{Parser P Output}.

(** A template whose fields add up to 0 bytes (e.g. a template record with
    no field, which [parse_template_record] accepts) makes a data set under
    it panic ([chunks(0)]), even an empty one, when both arrive in one
    packet. *)
Theorem session_zero_stride_panics (s : Session P) (T : N) (fields : list FieldSpecifier)
    (data : bytes) (rest : list Set_) :
  stride fields = 0%nat ->
  session_parse_sets s
    (STemplateSet [{| tr_id := T; tr_fields := fields |}] ::
     SDataSet {| ds_id := T; ds_data := data |} :: rest) = Panic.
Proof.
  intros Hs. cbn [session_parse_sets].
  unfold session_parse_data_set, add_records. cbn [templates parser fold_left tr_id tr_fields ds_id].
  rewrite lookup_insert_eq. unfold decode_with. rewrite Hs. reflexivity.
Qed.

End SessionStride.

Lemma session_zero_stride_panics_witness :
  session_parse_sets empty_session
    (STemplateSet [{| tr_id := 300; tr_fields := [] |}] ::
     SDataSet {| ds_id := 300; ds_data := [] |} :: []) = Panic.
Proof. apply session_zero_stride_panics. reflexivity. Defined.
